(** * EMCA server: the data API (include/emca/dataapi.h)

    A shallow embedding of class [DataApi] and of its nested class
    [HeatmapApi], and the properties of the addressing scheme, of the
    collection switches and of the error behaviour that the header fixes.

    Conventions.
    - [uint32_t] is a [Z] in [0, 2^32); arithmetic wraps with [wrap32].
      The ids, counts and budget of the heatmap, which are only compared,
      counted up and subtracted under a guard, are in [N].
    - A member function that may throw is a function from the object to an
      [outcome] paired with the object after the call, so that what an
      exception leaves behind is explicit.
    - [std::vector] is a [list]; [vector::at] is the bounds-checked lookup
      [!!] whose failure is [std::out_of_range]. *)

From stdpp Require Import base numbers list strings.

Local Open Scope Z_scope.

(** ** Machine integers *)

Definition wrap32 (z : Z) : Z := z `mod` 2 ^ 32.

Definition u32_add (a b : Z) : Z := wrap32 (a + b).
Definition u32_mul (a b : Z) : Z := wrap32 (a * b).

Definition is_u32 (z : Z) : Prop := 0 ≤ z < 2 ^ 32.

(** The literal [-1U]. *)
Definition NEG1U : Z := wrap32 (-1).

(** ** Exceptions *)

Inductive exception : Type :=
  | out_of_range               (* std::out_of_range, from vector::at *)
  | logic_error (what : string)(* std::logic_error *)
  | unknown_face.              (* the spec's UnknownFace *)

Inductive outcome (A : Type) : Type :=
  | Returned (a : A)
  | Thrown (e : exception).
Arguments Returned {A} a.
Arguments Thrown {A} e.

(** ** The path data store *)

Module Store.

Section WithRecords.

(** The element type [T] of the [add*] templates, and the record classes of
    pathdata.h, of which the header shows only the uses.  They are
    parameters: [path_add s vals] is
    [PathData::add(s, val...)], [isect_add s vals] is
    [IntersectionData::add(s, val...)], and [intersectionAt d f] applies [f]
    to the record that [PathData::intersectionAt(d)] returns a reference
    to. *)
Context {T PathData IntersectionData : Type}.
Context (path_add : string → list T → PathData → PathData).
Context (isect_add : string → list T → IntersectionData → IntersectionData).
Context (intersectionAt :
           Z → (IntersectionData → IntersectionData) → PathData → PathData).

Record DataApi : Type := mkDataApi {
  m_paths : list PathData;
  m_height : Z;
  m_width : Z;
  m_sampleCount : Z;
  m_x : Z;
  m_y : Z;
  m_currentSampleIdx : Z;
  m_currentDepthIdx : Z;
  m_isCollecting : bool
}.

Definition set_paths (ps : list PathData) (d : DataApi) : DataApi :=
  mkDataApi ps (m_height d) (m_width d) (m_sampleCount d) (m_x d) (m_y d)
            (m_currentSampleIdx d) (m_currentDepthIdx d) (m_isCollecting d).

Definition set_collecting (b : bool) (d : DataApi) : DataApi :=
  mkDataApi (m_paths d) (m_height d) (m_width d) (m_sampleCount d) (m_x d)
            (m_y d) (m_currentSampleIdx d) (m_currentDepthIdx d) b.

(** A default-constructed object.  Only the two index cursors and the
    collection switch have member initialisers; the dimensions and the pixel
    cursor are indeterminate, hence arguments here. *)
Definition construct (h w c x y : Z) : DataApi :=
  mkDataApi [] h w c x y NEG1U NEG1U false.

(** Modelled from the spec: the body of [get_current_id] is in dataapi.cpp,
    which is missing.  The formula is the layout comment above [m_paths],
    [(x,y,c) -> y*(W*C) + x*C + c], which is also the spec's [id(x,y,c)];
    the arithmetic is that of the declared [uint32_t] operands and result. *)
Definition get_current_id (d : DataApi) (x y c : Z) : Z :=
  u32_add (u32_add (u32_mul y (u32_mul (m_width d) (m_sampleCount d)))
                   (u32_mul x (m_sampleCount d)))
          c.

(** [m_paths.at(i)] followed by an in-place change [f] of the record that
    it returns a reference to. *)
Definition modify_at (i : Z) (f : PathData → PathData) (d : DataApi)
  : outcome unit * DataApi :=
  match m_paths d !! Z.to_nat i with
  | Some p => (Returned tt, set_paths (<[Z.to_nat i := f p]> (m_paths d)) d)
  | None => (Thrown out_of_range, d)
  end.

(** The four [addPathData] overloads have one body and differ in the number
    of values passed on; [vals] is the pack [val], [val1, val2], ... *)
Definition addPathData (s : string) (vals : list T) (d : DataApi)
  : outcome unit * DataApi :=
  if m_isCollecting d then
    modify_at (get_current_id d (m_x d) (m_y d) (m_currentSampleIdx d))
              (path_add s vals) d
  else (Returned tt, d).

Definition addPathData_1 s (val : T) := addPathData s [val].
Definition addPathData_2 s (val1 val2 : T) := addPathData s [val1; val2].
Definition addPathData_3 s (val1 val2 val3 : T) :=
  addPathData s [val1; val2; val3].
Definition addPathData_4 s (val1 val2 val3 val4 : T) :=
  addPathData s [val1; val2; val3; val4].

(** Likewise the four [addIntersectionData] overloads. *)
Definition addIntersectionData (s : string) (vals : list T) (d : DataApi)
  : outcome unit * DataApi :=
  if m_isCollecting d && negb (m_currentDepthIdx d =? NEG1U) then
    modify_at (get_current_id d (m_x d) (m_y d) (m_currentSampleIdx d))
              (intersectionAt (m_currentDepthIdx d) (isect_add s vals)) d
  else (Returned tt, d).

Definition addIntersectionData_1 s (val : T) := addIntersectionData s [val].
Definition addIntersectionData_2 s (val1 val2 : T) :=
  addIntersectionData s [val1; val2].
Definition addIntersectionData_3 s (val1 val2 val3 : T) :=
  addIntersectionData s [val1; val2; val3].
Definition addIntersectionData_4 s (val1 val2 val3 val4 : T) :=
  addIntersectionData s [val1; val2; val3; val4].

Definition enable (d : DataApi) : DataApi := set_collecting true d.
Definition disable (d : DataApi) : DataApi := set_collecting false d.
Definition isCollecting (d : DataApi) : bool := m_isCollecting d.

Definition clear (d : DataApi) : DataApi := set_paths [] d.

(** A run of [add*] calls, as the renderer issues them; it stops at the
    first exception, which propagates to the caller. *)
Inductive add_call : Type :=
  | AddPath (s : string) (vals : list T)
  | AddIntersection (s : string) (vals : list T).

Definition do_add (c : add_call) : DataApi → outcome unit * DataApi :=
  match c with
  | AddPath s vals => addPathData s vals
  | AddIntersection s vals => addIntersectionData s vals
  end.

Fixpoint do_adds (cs : list add_call) (d : DataApi)
  : outcome unit * DataApi :=
  match cs with
  | [] => (Returned tt, d)
  | c :: cs' =>
      match do_add c d with
      | (Returned _, d') => do_adds cs' d'
      | (Thrown e, d') => (Thrown e, d')
      end
  end.

(** The calls that the header defines in full, in any order; the object
    after a call is the one the call leaves, also when it throws. *)
Inductive header_call : Type :=
  | CallAdd (c : add_call)
  | CallEnable
  | CallDisable
  | CallClear.

Definition do_header_call (c : header_call) (d : DataApi) : DataApi :=
  match c with
  | CallAdd a => (do_add a d).2
  | CallEnable => enable d
  | CallDisable => disable d
  | CallClear => clear d
  end.

Definition do_header_calls (cs : list header_call) (d : DataApi) : DataApi :=
  foldl (λ d c, do_header_call c d) d cs.

(** The three properties of the addressing function on the valid domain of
    a store of height [H], width [W] and [C] samples per pixel. *)
Definition valid_coord (d : DataApi) (x y c : Z) : Prop :=
  0 ≤ x < m_width d ∧ 0 ≤ y < m_height d ∧ 0 ≤ c < m_sampleCount d.

Definition record_count (d : DataApi) : Z :=
  m_height d * m_width d * m_sampleCount d.

Definition id_is_formula (d : DataApi) : Prop :=
  ∀ x y c, valid_coord d x y c →
    get_current_id d x y c
    = y * (m_width d * m_sampleCount d) + x * m_sampleCount d + c.

Definition id_is_injective (d : DataApi) : Prop :=
  ∀ x y c x' y' c', valid_coord d x y c → valid_coord d x' y' c' →
    get_current_id d x y c = get_current_id d x' y' c' →
    x = x' ∧ y = y' ∧ c = c'.

Definition id_covers (d : DataApi) : Prop :=
  ∀ i, 0 ≤ i < record_count d ↔
       ∃ x y c, valid_coord d x y c ∧ get_current_id d x y c = i.

Definition id_layout (d : DataApi) : Prop :=
  id_is_formula d ∧ id_is_injective d ∧ id_covers d.

Definition dims_u32 (d : DataApi) : Prop :=
  is_u32 (m_height d) ∧ is_u32 (m_width d) ∧ is_u32 (m_sampleCount d).

(** The index that the [add*] templates pass to [m_paths.at]. *)
Definition current_index (d : DataApi) : Z :=
  get_current_id d (m_x d) (m_y d) (m_currentSampleIdx d).

(** Two objects with the same dimensions and the same addressing cursor. *)
Definition same_cursor (d d' : DataApi) : Prop :=
  m_height d' = m_height d ∧ m_width d' = m_width d
  ∧ m_sampleCount d' = m_sampleCount d
  ∧ m_x d' = m_x d ∧ m_y d' = m_y d
  ∧ m_currentSampleIdx d' = m_currentSampleIdx d
  ∧ m_currentDepthIdx d' = m_currentDepthIdx d.

(** What an [add*] call that passes the collection guard does to the record
    it reaches: [addPathData] adds to the record, [addIntersectionData] adds
    to its intersection at the current depth, or does nothing while the
    depth index is unset. *)
Definition add_effect (d : DataApi) (c : add_call) : PathData → PathData :=
  match c with
  | AddPath s vals => path_add s vals
  | AddIntersection s vals =>
      if m_currentDepthIdx d =? NEG1U then id
      else intersectionAt (m_currentDepthIdx d) (isect_add s vals)
  end.

Definition is_toggle (c : header_call) : bool :=
  match c with
  | CallEnable | CallDisable => true
  | CallAdd _ | CallClear => false
  end.

Definition is_clear (c : header_call) : bool :=
  match c with
  | CallClear => true
  | CallAdd _ | CallEnable | CallDisable => false
  end.

End WithRecords.

Arguments DataApi : clear implicits.

End Store.

(** ** The heatmap engine *)

Module Heatmap.

Section WithGeometry.

(** What scenedata.h, heatmapdata.h and the geometry provider supply:
    points, the surface regions of faces, the point-in-region test, the
    subdivision primitive, the floating-point accumulators with their
    arithmetic, the saturation policy and the finalization arithmetic.
    The header fixes none of them; all are parameters. *)
Context {Point Region Color Weight : Type}.
Context (contains : Region → Point → bool).
Context (subdivide : Region → list Region).
Context (zero_color : Color) (zero_weight : Weight).
Context (add_weighted : Color → Color → Weight → Color).
Context (add_weight : Weight → Weight → Weight).
Context (saturated : N → bool).
Context (finalized_value :
           bool → N → list (Color * Weight * N) → Color → Weight → N → Color).

Local Open Scope N_scope.

(** Modelled from the spec: struct [Mesh] of scenedata.h is missing; a mesh
    supplies its faces, each with its surface region. *)
Record Mesh : Type := mkMesh { faces : list Region }.

#[local] Set Warnings "-register-all".

(** Modelled from the spec: the Face Subdivision Node of heatmapdata.h,
    which is missing.  A node holds its region, the accumulated weighted
    value, the accumulated weight, the sample count and its children; it
    is a leaf when it has no children. *)
Inductive Node : Type :=
  mkNode (region : Region) (value : Color) (weight : Weight) (count : N)
         (children : list Node).

Definition node_region (n : Node) : Region :=
  match n with mkNode r _ _ _ _ => r end.
Definition node_children (n : Node) : list Node :=
  match n with mkNode _ _ _ _ cs => cs end.

(** Modelled from the spec: class [HeatmapData] of heatmapdata.h is
    missing; per mesh it is the root set of nodes, one per face. *)
Record HeatmapData : Type := mkHeatmapData { roots : list Node }.

(** The members of [HeatmapApi] as the header declares them, followed by
    two that the header does not have.  Modelled from the spec:
    [subdivision_budget] is the configured budget and [budget_left] the
    shared budget counter that adaptive subdivision consumes; the header
    shows no member for them, they live with the missing [HeatmapData]. *)
Record HeatmapApi : Type := mkHeatmapApi {
  label : string;
  colormap : string;
  show_colorbar : bool;
  density_mode : bool;
  is_collecting : bool;
  finalized : bool;
  heatmap_data : list HeatmapData;
  subdivision_budget : N;
  budget_left : N
}.

Definition construct : HeatmapApi :=
  mkHeatmapApi "unknown" "plasma" true false false false [] 0 0.

Definition set_is_collecting (b : bool) (h : HeatmapApi) : HeatmapApi :=
  mkHeatmapApi (label h) (colormap h) (show_colorbar h) (density_mode h)
               b (finalized h) (heatmap_data h)
               (subdivision_budget h) (budget_left h).

Definition fresh_leaf (r : Region) : Node :=
  mkNode r zero_color zero_weight 0 [].

(** The default argument of [initialize]: [1<<23]. *)
Definition default_subdivision_budget : N := N.shiftl 1 23.

(** Modelled from the spec: the body of [initialize] is missing.  It builds
    one root node per input face across all meshes and establishes the
    budget counter; the state it leaves is the spec's
    {collecting, not-finalized}. *)
Definition initialize (meshes : list Mesh) (subdivision_budget : N)
           (h : HeatmapApi) : HeatmapApi :=
  mkHeatmapApi (label h) (colormap h) (show_colorbar h) (density_mode h)
               true false
               ((λ m, mkHeatmapData (fresh_leaf <$> faces m)) <$> meshes)
               subdivision_budget subdivision_budget.

Definition initialize_default (meshes : list Mesh) : HeatmapApi → HeatmapApi :=
  initialize meshes default_subdivision_budget.

(** Modelled from the spec: the body of [reset] is missing.  It clears all
    accumulators and the finalized flag and retains the subdivision
    topology. *)
Fixpoint clear_node (n : Node) : Node :=
  match n with
  | mkNode r _ _ _ cs => mkNode r zero_color zero_weight 0 (clear_node <$> cs)
  end.

Definition clear_mesh (m : HeatmapData) : HeatmapData :=
  mkHeatmapData (clear_node <$> roots m).

Definition reset (h : HeatmapApi) : HeatmapApi :=
  mkHeatmapApi (label h) (colormap h) (show_colorbar h) (density_mode h)
               (is_collecting h) false (clear_mesh <$> heatmap_data h)
               (subdivision_budget h) (budget_left h).

(** From the header. *)
Definition enable (h : HeatmapApi) : HeatmapApi :=
  set_is_collecting true (if finalized h then reset h else h).
Definition disable (h : HeatmapApi) : HeatmapApi :=
  set_is_collecting false h.
Definition isCollecting (h : HeatmapApi) : bool := is_collecting h.
Definition hasData (h : HeatmapApi) : bool := finalized h.

Definition getHeatmapData (h : HeatmapApi)
  : outcome (list HeatmapData) * HeatmapApi :=
  if negb (finalized h) then (Thrown (logic_error "finalize the data first"), h)
  else (Returned (heatmap_data h), h).

(** Modelled from the spec: the body of [addSample] is missing.  The
    definitions from here to [addSample] follow the spec's description: find
    the root node of the face, descend to the leaf containing the point,
    subdivide a saturated leaf if the budget allows, accumulate. *)

(** A leaf takes a sample: [value*weight] into the running sum, [weight]
    into the running weight, one more sample. *)
Definition leaf_add (v : Color) (w : Weight) (n : Node) : Node :=
  match n with
  | mkNode r val wt k cs => mkNode r (add_weighted val v w) (add_weight wt w) (k + 1) cs
  end.

(** Among siblings the sample goes to the first whose region contains the
    point; the last sibling takes what none before it claimed. *)
Definition takes (p : Point) (c : Node) (rest : list Node) : bool :=
  contains (node_region c) p || bool_decide (rest = []).

Fixpoint route_leaf (p : Point) (v : Color) (w : Weight) (cs : list Node)
  : list Node :=
  match cs with
  | [] => []
  | c :: rest =>
      if takes p c rest then leaf_add v w c :: rest
      else c :: route_leaf p v w rest
  end.

(** The same choice among the children of an internal node, where taking
    the sample is the descent [f] into the chosen child, which may consume
    budget; [budget] is what is left when no child is entered. *)
Definition route (p : Point) (f : Node → Node * N) (budget : N)
  : list Node → list Node * N :=
  fix go (l : list Node) : list Node * N :=
    match l with
    | [] => ([], budget)
    | c :: rest =>
        if takes p c rest
        then let '(c', b') := f c in (c' :: rest, b')
        else let '(rest', b') := go rest in (c :: rest', b')
    end.

(** Descent to the leaf containing the point.  A saturated leaf is
    subdivided before accumulating when the counter still pays for its
    children; every child created takes one unit of the counter.  This is
    the reading of the spec's "the global budget is not exhausted" under
    which its ceiling holds: a subdivision that the counter does not cover
    does not occur. *)
Fixpoint add_node (p : Point) (v : Color) (w : Weight) (budget : N)
         (n : Node) {struct n} : Node * N :=
  match n with
  | mkNode r val wt k cs =>
      match cs with
      | [] =>
          let rs := subdivide r in
          if saturated k && negb (bool_decide (rs = []))
             && (N.of_nat (length rs) <=? budget)
          then (mkNode r val wt k (route_leaf p v w (fresh_leaf <$> rs)),
                budget - N.of_nat (length rs))
          else (leaf_add v w n, budget)
      | _ :: _ =>
          let '(cs', b') := route p (add_node p v w budget) budget cs in
          (mkNode r val wt k cs', b')
      end
  end.

Definition set_sampled (data : list HeatmapData) (b : N) (h : HeatmapApi)
  : HeatmapApi :=
  mkHeatmapApi (label h) (colormap h) (show_colorbar h) (density_mode h)
               (is_collecting h) (finalized h) data (subdivision_budget h) b.

Definition addSample (mesh_id : N) (p : Point) (face_id : N) (value : Color)
           (weight : Weight) (h : HeatmapApi) : outcome unit * HeatmapApi :=
  if is_collecting h then
    match heatmap_data h !! N.to_nat mesh_id with
    | Some m =>
        match roots m !! N.to_nat face_id with
        | Some n =>
            let '(n', b') := add_node p value weight (budget_left h) n in
            (Returned tt,
             set_sampled (<[N.to_nat mesh_id :=
                              mkHeatmapData (<[N.to_nat face_id := n']> (roots m))]>
                            (heatmap_data h)) b' h)
        | None => (Thrown unknown_face, h)
        end
    | None => (Thrown unknown_face, h)
    end
  else (Returned tt, h).

(** Modelled from the spec: the body of [finalize] is missing.  Every node
    gets its finalized value from its own accumulators and those of its
    ancestors (the downward propagation), in density mode from the sample
    counts and the largest leaf count of the mesh; the arithmetic is the
    parameter [finalized_value].  No node is created or removed. *)
Fixpoint max_leaf_count (n : Node) : N :=
  match n with
  | mkNode _ _ _ k [] => k
  | mkNode _ _ _ _ cs => foldr (λ c acc, N.max (max_leaf_count c) acc) 0 cs
  end.

Fixpoint finalize_node (dm : bool) (mx : N) (anc : list (Color * Weight * N))
         (n : Node) : Node :=
  match n with
  | mkNode r v w k cs =>
      mkNode r (finalized_value dm mx anc v w k) w k
             (finalize_node dm mx ((v, w, k) :: anc) <$> cs)
  end.

Definition finalize_mesh (dm : bool) (m : HeatmapData) : HeatmapData :=
  let mx := foldr (λ c acc, N.max (max_leaf_count c) acc) 0 (roots m) in
  mkHeatmapData (finalize_node dm mx [] <$> roots m).

Definition finalize (h : HeatmapApi) : HeatmapApi :=
  mkHeatmapApi (label h) (colormap h) (show_colorbar h) (density_mode h)
               (is_collecting h) true
               (finalize_mesh (density_mode h) <$> heatmap_data h)
               (subdivision_budget h) (budget_left h).

(** Counting. [node_total] is the number of nodes of a tree, [descendants]
    the number of those created by subdivision, i.e. all but the root. *)
Fixpoint node_total (n : Node) : N :=
  match n with
  | mkNode _ _ _ _ cs => 1 + foldr (λ c acc, node_total c + acc) 0 cs
  end.

Definition descendants (n : Node) : N :=
  foldr (λ c acc, node_total c + acc) 0 (node_children n).

Definition subdivided_in_mesh (m : HeatmapData) : N :=
  foldr (λ n acc, descendants n + acc) 0 (roots m).

Definition subdivision_nodes (data : list HeatmapData) : N :=
  foldr (λ m acc, subdivided_in_mesh m + acc) 0 data.




(** The number of samples held by a tree. *)
Fixpoint samples_held (n : Node) : N :=
  match n with
  | mkNode _ _ _ k cs => k + foldr (λ c acc, samples_held c + acc) 0 cs
  end.

Definition samples_in_mesh (m : HeatmapData) : N :=
  foldr (λ n acc, samples_held n + acc) 0 (roots m).

Definition samples_recorded (data : list HeatmapData) : N :=
  foldr (λ m acc, samples_in_mesh m + acc) 0 data.

(** The topology of the trees: the data with every accumulator erased. *)
Definition topology (data : list HeatmapData) : list HeatmapData :=
  clear_mesh <$> data.

(** A counter that pays for no subdivision at all: the budget is
    exhausted. *)
Definition cannot_pay (b : N) : Prop :=
  ∀ r, subdivide r = [] ∨ b < N.of_nat (length (subdivide r)).

(** What one descent does to a tree and to the counter: every node it
    creates is paid for, the sample is held by the tree afterwards, and a
    counter that cannot pay leaves the topology and itself as they were. *)
Definition descent_ok (b : N) (n : Node) (res : Node * N) : Prop :=
  node_total res.1 + res.2 = node_total n + b
  ∧ samples_held res.1 = samples_held n + 1
  ∧ (cannot_pay b → clear_node res.1 = clear_node n ∧ res.2 = b).


(** The face that a sample names exists. *)
Definition known_face (h : HeatmapApi) (mesh_id face_id : N) : Prop :=
  ∃ m n, heatmap_data h !! N.to_nat mesh_id = Some m
         ∧ roots m !! N.to_nat face_id = Some n.

(** Calls on a heatmap instance. *)
Inductive call : Type :=
  | Initialize (meshes : list Mesh) (budget : option N)
  | Reset
  | Enable
  | Disable
  | AddSample (mesh_id : N) (p : Point) (face_id : N) (value : Color)
              (weight : Weight)
  | Finalize.

Definition do_call (c : call) (h : HeatmapApi) : HeatmapApi :=
  match c with
  | Initialize meshes (Some b) => initialize meshes b h
  | Initialize meshes None => initialize_default meshes h
  | Reset => reset h
  | Enable => enable h
  | Disable => disable h
  | AddSample mesh_id p face_id value weight =>
      (addSample mesh_id p face_id value weight h).2
  | Finalize => finalize h
  end.

Definition run (cs : list call) (h : HeatmapApi) : HeatmapApi :=
  foldl (λ h c, do_call c h) h cs.

(** The calls that perform a reset: [reset] itself, [enable], which calls
    [reset] on a finalized heatmap, and [initialize], which rebuilds the
    data. *)
Definition resets (c : call) : bool :=
  match c with
  | Reset | Enable | Initialize _ _ => true
  | Disable | AddSample _ _ _ _ _ | Finalize => false
  end.


(** [finalize] has been performed and no reset since. *)
Definition finalized_since_reset (cs : list call) : Prop :=
  ∃ pre post, cs = pre ++ Finalize :: post
              ∧ Forall (λ c, resets c = false) post.

(** A pass of [addSample] calls and nothing else. *)
Definition sample_calls (l : list (N * Point * N * Color * Weight))
  : list call :=
  (λ '(mesh_id, p, face_id, value, weight),
     AddSample mesh_id p face_id value weight) <$> l.

End WithGeometry.

Arguments Node : clear implicits.
Arguments HeatmapData : clear implicits.
Arguments HeatmapApi : clear implicits.
Arguments Mesh : clear implicits.
Arguments call : clear implicits.

End Heatmap.

(** ** Records for concrete runs *)

Module Records.

Section WithValues.

Context {T : Type}.

(** Modelled from the spec: pathdata.h is missing.  An Attribute Bag is an
    append-only sequence of named values of arity 1 to 4 (a repeated name
    appends one more entry); an Intersection Record and a Path Record each
    carry a bag, and a Path Record the sequence of its Intersection
    Records, created lazily per depth.  The fixed geometric and radiometric
    fields play no part in [add] and are left out. *)
Definition AttributeBag : Type := list (string * list T).

Record IntersectionRecord : Type := mkIntersection { i_bag : AttributeBag }.

Record PathRecord : Type := mkPath {
  p_bag : AttributeBag;
  p_intersections : list IntersectionRecord
}.

Definition empty_intersection : IntersectionRecord := mkIntersection [].
Definition empty_path : PathRecord := mkPath [] [].

Definition path_add (s : string) (vals : list T) (p : PathRecord) : PathRecord :=
  mkPath (p_bag p ++ [(s, vals)]) (p_intersections p).

Definition isect_add (s : string) (vals : list T) (i : IntersectionRecord)
  : IntersectionRecord :=
  mkIntersection (i_bag i ++ [(s, vals)]).

Definition intersectionAt (depth : Z)
           (f : IntersectionRecord → IntersectionRecord) (p : PathRecord)
  : PathRecord :=
  let k := Z.to_nat depth in
  let segs := p_intersections p
              ++ replicate (S k - length (p_intersections p)) empty_intersection in
  mkPath (p_bag p) (alter f k segs).

End WithValues.

Arguments AttributeBag : clear implicits.
Arguments IntersectionRecord : clear implicits.
Arguments PathRecord : clear implicits.

(** Stores used in the examples: integer attribute values. *)
Definition store : Type := Store.DataApi (PathRecord Z).

Definition addPath : string → list Z → store → outcome unit * store :=
  Store.addPathData path_add.
Definition addIntersection : string → list Z → store → outcome unit * store :=
  Store.addIntersectionData isect_add intersectionAt.

(** Two rows of 65536 pixels with 65536 samples each: [H*W*C = 2^33]. *)
Definition store_2_65536_65536 : store :=
  Store.mkDataApi [] 2 65536 65536 0 0 NEG1U NEG1U false.

(** A 2 x 2 image with one sample per pixel, all records empty, the pixel
    cursor on [(1, 0)], collection enabled, no sample or depth index set. *)
Definition store_2_2_1 : store :=
  Store.mkDataApi (replicate 4 empty_path) 2 2 1 1 0 NEG1U NEG1U true.

(** The same with sample 0 and depth 0 selected. *)
Definition store_2_2_1_at_0 : store :=
  Store.mkDataApi (replicate 4 empty_path) 2 2 1 1 0 0 0 true.

End Records.

(** ** A heatmap for concrete runs *)

Module Strip.

(** A one-dimensional stand-in for the geometry: a face is an interval
    [[lo, hi)] of integers, a point is an integer, subdivision halves the
    interval, values and weights are integers, and a leaf is saturated once
    it holds two samples. *)
Definition contains (r : Z * Z) (p : Z) : bool :=
  (r.1 <=? p)%Z && (p <? r.2)%Z.

Definition subdivide (r : Z * Z) : list (Z * Z) :=
  let mid := ((r.1 + r.2) `div` 2)%Z in [(r.1, mid); (mid, r.2)].

Definition add_weighted (sum value weight : Z) : Z := (sum + value * weight)%Z.
Definition add_weight (sum weight : Z) : Z := (sum + weight)%Z.
Definition saturated (k : N) : bool := (2 <=? k)%N.

Definition finalized_value (dm : bool) (mx : N) (anc : list (Z * Z * N))
           (v w : Z) (k : N) : Z :=
  if dm then Z.of_N k else if (w =? 0)%Z then 0%Z else (v `div` w)%Z.

Definition heatmap : Type := Heatmap.HeatmapApi (Z * Z) Z Z.

Definition call : Type := Heatmap.call Z (Z * Z) Z Z.

Definition addSample
  : N → Z → N → Z → Z → heatmap → outcome unit * heatmap :=
  Heatmap.addSample contains subdivide 0%Z 0%Z add_weighted add_weight saturated.

Definition run : list call → heatmap → heatmap :=
  Heatmap.run contains subdivide 0%Z 0%Z add_weighted add_weight saturated
              finalized_value.

(** One mesh with the single face [[0, 8)]. *)
Definition one_face : list (Heatmap.Mesh (Z * Z)) := [Heatmap.mkMesh [(0, 8)%Z]].


(** Six samples on that face under a budget of three nodes. *)
Definition six_samples : list call :=
  [Heatmap.Initialize one_face (Some 3%N);
   Heatmap.AddSample 0 1%Z 0 10%Z 1%Z;
   Heatmap.AddSample 0 5%Z 0 10%Z 1%Z;
   Heatmap.AddSample 0 1%Z 0 10%Z 1%Z;
   Heatmap.AddSample 0 1%Z 0 10%Z 1%Z;
   Heatmap.AddSample 0 1%Z 0 10%Z 1%Z;
   Heatmap.AddSample 0 1%Z 0 10%Z 1%Z].

End Strip.

(** * Properties *)

(** ** Machine integers *)

Lemma wrap32_range z : is_u32 (wrap32 z).
Proof. unfold is_u32, wrap32. apply Z.mod_pos_bound. lia. Qed.

Lemma wrap32_small z : is_u32 z → wrap32 z = z.
Proof. unfold is_u32, wrap32. intros Hz. by apply Z.mod_small. Qed.

Lemma NEG1U_value : NEG1U = 4294967295.
Proof. reflexivity. Qed.

(** Wrapping at every step is wrapping once at the end. *)
Lemma wrap32_linear y wc x c k :
  u32_add (u32_add (u32_mul y (u32_mul wc c)) (u32_mul x c)) k
  = wrap32 (y * (wc * c) + x * c + k).
Proof.
  unfold u32_add, u32_mul, wrap32.
  rewrite Z.mul_mod_idemp_r by lia.
  rewrite <- Z.add_mod by lia.
  by rewrite Z.add_mod_idemp_l by lia.
Qed.

(** ** The addressing function *)

Section Addressing.

Context {PathData : Type}.
Implicit Types d : Store.DataApi PathData.

Lemma get_current_id_wrap d x y c :
  Store.get_current_id d x y c
  = wrap32 (y * (Store.m_width d * Store.m_sampleCount d)
            + x * Store.m_sampleCount d + c).
Proof. apply wrap32_linear. Qed.

Lemma get_current_id_range d x y c : is_u32 (Store.get_current_id d x y c).
Proof. rewrite get_current_id_wrap. apply wrap32_range. Qed.

(** The formula stays below the record count on valid coordinates. *)
Lemma formula_bounds (H W C x y c : Z) :
  0 ≤ x < W → 0 ≤ y < H → 0 ≤ c < C →
  0 ≤ y * (W * C) + x * C + c < H * W * C.
Proof.
  intros Hx Hy Hc.
  assert (0 ≤ W * C) by (apply Z.mul_nonneg_nonneg; lia).
  assert (0 ≤ y * (W * C)) by (apply Z.mul_nonneg_nonneg; lia).
  assert (0 ≤ x * C) by (apply Z.mul_nonneg_nonneg; lia).
  assert (x * C + C ≤ W * C) by nia.
  assert (y * (W * C) + W * C ≤ H * (W * C)) by nia.
  lia.
Qed.

Lemma formula_injective (W C x y c x' y' c' : Z) :
  0 ≤ x < W → 0 ≤ c < C → 0 ≤ x' < W → 0 ≤ c' < C →
  y * (W * C) + x * C + c = y' * (W * C) + x' * C + c' →
  x = x' ∧ y = y' ∧ c = c'.
Proof.
  intros Hx Hc Hx' Hc' Heq.
  assert (0 ≤ x * C) by (apply Z.mul_nonneg_nonneg; lia).
  assert (0 ≤ x' * C) by (apply Z.mul_nonneg_nonneg; lia).
  assert (x * C + C ≤ W * C) by nia.
  assert (x' * C + C ≤ W * C) by nia.
  assert (Hy : y = y').
  { apply (Z.div_mod_unique (W * C) y y' (x * C + c) (x' * C + c')); lia. }
  subst y'.
  assert (Hx2 : x = x').
  { apply (Z.div_mod_unique C x x' c c'); lia. }
  subst x'. repeat split; lia.
Qed.

(** Division recovers the coordinates of an index. *)
Lemma formula_covers (H W C i : Z) :
  0 ≤ H → 0 ≤ W → 0 ≤ C →
  0 ≤ i < H * W * C →
  ∃ x y c, (0 ≤ x < W ∧ 0 ≤ y < H ∧ 0 ≤ c < C)
           ∧ y * (W * C) + x * C + c = i.
Proof.
  intros HH0 HW0 HC0 Hi.
  assert (HC : 0 < C) by (destruct (decide (C = 0)); [subst; lia | lia]).
  assert (HW : 0 < W) by (destruct (decide (W = 0)); [subst; lia | lia]).
  assert (HWC : 0 < W * C) by (apply Z.mul_pos_pos; lia).
  exists ((i `mod` (W * C)) `div` C), (i `div` (W * C)), (i `mod` C).
  pose proof (Z.mod_pos_bound i (W * C) HWC) as Hr.
  pose proof (Z.mod_pos_bound i C HC) as Hc.
  pose proof (Z.div_mod i (W * C) ltac:(lia)) as Hdm.
  pose proof (Z.div_mod (i `mod` (W * C)) C ltac:(lia)) as Hdm2.
  assert (Hmm : (i `mod` (W * C)) `mod` C = i `mod` C).
  { apply Z.mod_mod_divide. exists W. reflexivity. }
  rewrite Hmm in Hdm2.
  repeat split; try lia.
  - apply Z.div_pos; lia.
  - apply Z.div_lt_upper_bound; lia.
  - apply Z.div_pos; lia.
  - apply Z.div_lt_upper_bound; [lia |]. rewrite Z.mul_comm. lia.
Qed.

(** C1 (amended): when the record count [H*W*C] does not exceed [2^32], the
    linear index [get_current_id x y c] of every valid [(x, y, c)] is
    [y*(W*C) + x*C + c], the function is injective on the valid
    coordinates, and its image there is exactly [[0, H*W*C)]. *)
Theorem get_current_id_layout d :
  Store.dims_u32 d → Store.record_count d ≤ 2 ^ 32 → Store.id_layout d.
Proof.
  intros (HH & HW & HC) Hfit.
  assert (Hf : Store.id_is_formula d).
  { intros x y c (Hx & Hy & Hc).
    rewrite get_current_id_wrap. apply wrap32_small.
    pose proof (formula_bounds _ _ _ _ _ _ Hx Hy Hc).
    unfold Store.record_count, is_u32 in *. lia. }
  split; [exact Hf |]. split.
  - intros x y c x' y' c' Hv Hv' Heq.
    rewrite (Hf _ _ _ Hv), (Hf _ _ _ Hv') in Heq.
    destruct Hv as (? & ? & ?), Hv' as (? & ? & ?).
    by apply (formula_injective (Store.m_width d) (Store.m_sampleCount d)).
  - intros i. split.
    + intros Hi.
      unfold is_u32 in *.
      destruct (formula_covers (Store.m_height d) (Store.m_width d)
                  (Store.m_sampleCount d) i) as (x & y & c & Hv & Heq);
        [lia | lia | lia | exact Hi |].
      exists x, y, c. split; [exact Hv |]. by rewrite (Hf _ _ _ Hv).
    + intros (x & y & c & Hv & Heq).
      rewrite (Hf _ _ _ Hv) in Heq. subst i.
      destruct Hv as (? & ? & ?). by apply formula_bounds.
Qed.

End Addressing.

Lemma get_current_id_layout_witness :
  Store.record_count Records.store_2_2_1 = 4
  ∧ Store.id_layout Records.store_2_2_1.
Proof.
  split; [reflexivity |].
  apply get_current_id_layout.
  - unfold Store.dims_u32, is_u32; simpl. lia.
  - unfold Store.record_count; simpl. lia.
Defined.

Example get_current_id_2_2_1 :
  Store.get_current_id Records.store_2_2_1 1 0 0 = 1
  ∧ Store.get_current_id Records.store_2_2_1 0 1 0 = 2
  ∧ Store.get_current_id Records.store_2_2_1 1 1 0 = 3.
Proof. done. Qed.

(** C1, as stated, fails once [H*W*C] exceeds [2^32]: with [W = C = 65536]
    the row stride [W*C] wraps to 0, so [(0, 0, 0)] and [(0, 1, 0)] share
    index 0. *)
Lemma get_current_id_layout_overflow :
  Store.dims_u32 Records.store_2_65536_65536
  ∧ ¬ Store.id_layout Records.store_2_65536_65536.
Proof.
  split.
  - unfold Store.dims_u32, is_u32; simpl. lia.
  - intros (_ & Hinj & _).
    assert (Hv : ∀ y, 0 ≤ y < 2 →
                 Store.valid_coord Records.store_2_65536_65536 0 y 0).
    { intros y Hy. unfold Store.valid_coord; simpl. lia. }
    destruct (Hinj 0 0 0 0 1 0 (Hv 0 ltac:(lia)) (Hv 1 ltac:(lia)) eq_refl)
      as (_ & Hy & _).
    discriminate Hy.
Qed.

(** ** Writes into the store *)

Section Writes.

Context {T PathData IntersectionData : Type}.
Context (path_add : string → list T → PathData → PathData).
Context (isect_add : string → list T → IntersectionData → IntersectionData).
Context (intersectionAt :
           Z → (IntersectionData → IntersectionData) → PathData → PathData).

Implicit Types (d : Store.DataApi PathData) (s : string) (vals : list T).

Local Abbreviation addPathData := (Store.addPathData path_add).
Local Abbreviation addIntersectionData :=
  (Store.addIntersectionData isect_add intersectionAt).
Local Abbreviation do_add := (Store.do_add path_add isect_add intersectionAt).
Local Abbreviation do_adds := (Store.do_adds path_add isect_add intersectionAt).
Local Abbreviation do_header_calls :=
  (Store.do_header_calls path_add isect_add intersectionAt).
Local Abbreviation current_id d :=
  (Store.get_current_id d (Store.m_x d) (Store.m_y d)
                        (Store.m_currentSampleIdx d)).

(** [vector::at] by cases on the index. *)
Lemma modify_at_out_of_range d i f :
  0 ≤ i → Z.of_nat (length (Store.m_paths d)) ≤ i →
  Store.modify_at i f d = (Thrown out_of_range, d).
Proof.
  intros Hi Hlen. unfold Store.modify_at.
  rewrite lookup_ge_None_2; [done | lia].
Qed.

Lemma modify_at_in_range d i f p :
  Store.m_paths d !! Z.to_nat i = Some p →
  Store.modify_at i f d
  = (Returned tt, Store.set_paths (<[Z.to_nat i := f p]> (Store.m_paths d)) d).
Proof. intros Hp. unfold Store.modify_at. by rewrite Hp. Qed.

Lemma modify_at_returns d i f :
  0 ≤ i < Z.of_nat (length (Store.m_paths d)) →
  (Store.modify_at i f d).1 = Returned tt.
Proof.
  intros Hi.
  destruct (lookup_lt_is_Some_2 (Store.m_paths d) (Z.to_nat i)) as [p Hp];
    [lia |].
  by rewrite (modify_at_in_range _ _ _ _ Hp).
Qed.

Lemma depth_guard_unset d :
  Store.m_currentDepthIdx d = NEG1U →
  Store.m_isCollecting d && negb (Store.m_currentDepthIdx d =? NEG1U) = false.
Proof. intros ->. rewrite Z.eqb_refl. by destruct (Store.m_isCollecting d). Qed.

Lemma depth_guard_set d :
  Store.m_isCollecting d = true → Store.m_currentDepthIdx d ≠ NEG1U →
  Store.m_isCollecting d && negb (Store.m_currentDepthIdx d =? NEG1U) = true.
Proof.
  intros -> Hne. simpl. apply negb_true_iff. by apply Z.eqb_neq.
Qed.

(** Both guards fail when the collection switch is off. *)
Lemma add_guard_off c d :
  Store.m_isCollecting d = false → do_add c d = (Returned tt, d).
Proof.
  intros Hc. destruct c as [s vals | s vals]; cbn [Store.do_add].
  - unfold Store.addPathData. by rewrite Hc.
  - unfold Store.addIntersectionData. by rewrite Hc.
Qed.

(** C2: with collection disabled every [addPathData] and every
    [addIntersectionData] call, whatever the cursor and the arguments,
    returns normally and leaves the whole object, hence all Path Records
    and the cursor, as it was. *)
Theorem disabled_add_is_noop d s vals :
  Store.isCollecting d = false →
  addPathData s vals d = (Returned tt, d)
  ∧ addIntersectionData s vals d = (Returned tt, d).
Proof.
  unfold Store.isCollecting. intros Hc. split.
  - exact (add_guard_off (Store.AddPath s vals) d Hc).
  - exact (add_guard_off (Store.AddIntersection s vals) d Hc).
Qed.

(** C3: while collecting, a write through [addPathData], and one through
    [addIntersectionData] (a call with the depth index set), whose linear
    index is outside [[0, number of records)] throws [out_of_range] and
    leaves the object unchanged; with the index in range neither throws. *)
Theorem add_is_bounds_checked d s vals :
  Store.isCollecting d = true →
  let i := current_id d in
  let n := Z.of_nat (length (Store.m_paths d)) in
  (¬ (0 ≤ i < n) →
     addPathData s vals d = (Thrown out_of_range, d)
     ∧ (Store.m_currentDepthIdx d ≠ NEG1U →
        addIntersectionData s vals d = (Thrown out_of_range, d)))
  ∧ (0 ≤ i < n →
     (addPathData s vals d).1 = Returned tt
     ∧ (addIntersectionData s vals d).1 = Returned tt).
Proof.
  unfold Store.isCollecting. intros Hc. cbv zeta.
  pose proof (get_current_id_range d (Store.m_x d) (Store.m_y d)
                (Store.m_currentSampleIdx d)) as [Hi0 _].
  split.
  - intros Hout. split.
    + unfold Store.addPathData. rewrite Hc.
      apply modify_at_out_of_range; lia.
    + intros Hd. unfold Store.addIntersectionData.
      rewrite (depth_guard_set d Hc Hd).
      apply modify_at_out_of_range; lia.
  - intros Hin. split.
    + unfold Store.addPathData. rewrite Hc. by apply modify_at_returns.
    + unfold Store.addIntersectionData.
      destruct (_ && _); [by apply modify_at_returns | done].
Qed.

(** C4: with the depth index in its unset state [-1U], which is also its
    state on construction, [addIntersectionData] returns normally and
    changes nothing, for every key and value; with the depth index set and
    collection enabled the write goes to the Intersection Record at that
    depth of the current Path Record. *)
Theorem intersection_write_needs_depth d s vals :
  (∀ h w c x y,
     Store.m_currentDepthIdx (Store.construct (PathData := PathData) h w c x y)
     = NEG1U)
  ∧ (Store.m_currentDepthIdx d = NEG1U →
     addIntersectionData s vals d = (Returned tt, d))
  ∧ (Store.m_currentDepthIdx d ≠ NEG1U → Store.isCollecting d = true →
     ∀ p, Store.m_paths d !! Z.to_nat (current_id d) = Some p →
       addIntersectionData s vals d
       = (Returned tt,
          Store.set_paths
            (<[Z.to_nat (current_id d) :=
                 intersectionAt (Store.m_currentDepthIdx d) (isect_add s vals) p]>
               (Store.m_paths d)) d)).
Proof.
  split; [done |]. split.
  - intros Hd. unfold Store.addIntersectionData.
    by rewrite (depth_guard_unset d Hd).
  - intros Hd Hc p Hp. unfold Store.addIntersectionData.
    rewrite (depth_guard_set d Hc Hd). by apply modify_at_in_range.
Qed.


(** C8: [addPathData] has no guard on the sample index.  With collection
    enabled and the sample index still at its initial [-1U = 2^32 - 1] (its
    value on construction, which [enable] keeps), the linear index is
    computed from that value with wrap-around; the call throws
    [out_of_range] when the index is not below the number of records and
    writes into the record at that index otherwise. *)
Theorem unset_sample_index_is_used d s vals :
  Store.isCollecting d = true → Store.m_currentSampleIdx d = NEG1U →
  let i := current_id d in
  (∀ h w c x y,
     let d0 := Store.enable (Store.construct (PathData := PathData) h w c x y) in
     Store.isCollecting d0 = true ∧ Store.m_currentSampleIdx d0 = 2 ^ 32 - 1)
  ∧ i = (Store.m_y d * (Store.m_width d * Store.m_sampleCount d)
         + Store.m_x d * Store.m_sampleCount d + (2 ^ 32 - 1)) `mod` 2 ^ 32
  ∧ (Z.of_nat (length (Store.m_paths d)) ≤ i →
     addPathData s vals d = (Thrown out_of_range, d))
  ∧ (∀ p, Store.m_paths d !! Z.to_nat i = Some p →
       addPathData s vals d
       = (Returned tt,
          Store.set_paths (<[Z.to_nat i := path_add s vals p]> (Store.m_paths d))
                          d)).
Proof.
  unfold Store.isCollecting. intros Hc Hs. cbv zeta.
  pose proof (get_current_id_range d (Store.m_x d) (Store.m_y d)
                (Store.m_currentSampleIdx d)) as [Hi0 _].
  split; [done |]. split; [| split].
  - rewrite get_current_id_wrap, Hs. reflexivity.
  - intros Hlen. unfold Store.addPathData. rewrite Hc.
    apply modify_at_out_of_range; lia.
  - intros p Hp. unfold Store.addPathData. rewrite Hc.
    by apply modify_at_in_range.
Qed.

(** A store without records rejects every write that reaches [at]. *)
Lemma empty_store_rejects_writes d s vals :
  Store.m_paths d = [] → Store.isCollecting d = true →
  addPathData s vals d = (Thrown out_of_range, d)
  ∧ (Store.m_currentDepthIdx d ≠ NEG1U →
     addIntersectionData s vals d = (Thrown out_of_range, d))
  ∧ (Store.m_currentDepthIdx d = NEG1U →
     addIntersectionData s vals d = (Returned tt, d)).
Proof.
  intros Hempty Hc. unfold Store.isCollecting in Hc.
  pose proof (get_current_id_range d (Store.m_x d) (Store.m_y d)
                (Store.m_currentSampleIdx d)) as [Hi0 _].
  split; [| split].
  - unfold Store.addPathData. rewrite Hc.
    apply modify_at_out_of_range; [lia |]. rewrite Hempty. simpl. lia.
  - intros Hd. unfold Store.addIntersectionData.
    rewrite (depth_guard_set d Hc Hd).
    apply modify_at_out_of_range; [lia |]. rewrite Hempty. simpl. lia.
  - intros Hd. unfold Store.addIntersectionData.
    by rewrite (depth_guard_unset d Hd).
Qed.

(** No call that the header defines allocates records or touches the
    dimensions. *)
Lemma header_call_keeps_empty c d :
  Store.m_paths d = [] →
  let d' := Store.do_header_call path_add isect_add intersectionAt c d in
  Store.m_paths d' = []
  ∧ Store.m_height d' = Store.m_height d
  ∧ Store.m_width d' = Store.m_width d
  ∧ Store.m_sampleCount d' = Store.m_sampleCount d.
Proof.
  intros Hempty. destruct c as [[s vals | s vals] | | |]; simpl; try done.
  - unfold Store.addPathData, Store.modify_at. rewrite Hempty.
    by destruct (Store.m_isCollecting d).
  - unfold Store.addIntersectionData, Store.modify_at. rewrite Hempty.
    by destruct (_ && _).
Qed.

Lemma header_calls_keep_empty cs d :
  Store.m_paths d = [] →
  Store.m_paths (do_header_calls cs d) = []
  ∧ Store.m_height (do_header_calls cs d) = Store.m_height d
  ∧ Store.m_width (do_header_calls cs d) = Store.m_width d
  ∧ Store.m_sampleCount (do_header_calls cs d) = Store.m_sampleCount d.
Proof.
  revert d. induction cs as [| c cs IH]; intros d Hempty; [done |].
  destruct (header_call_keeps_empty c d Hempty) as (He & Hh & Hw & Hc).
  unfold Store.do_header_calls in *. simpl.
  destruct (IH _ He) as (? & ? & ? & ?). repeat split; congruence.
Qed.

(** C9 (amended): [clear] empties the record array and keeps [m_height],
    [m_width] and [m_sampleCount]; after it, through any further calls of
    the header's own functions, the array stays empty, and while collection
    is enabled every [addPathData] call and every [addIntersectionData]
    call with the depth index set throws [out_of_range], while an
    [addIntersectionData] call with the depth index unset stays a silent
    no-op. *)
Theorem clear_leaves_no_record d cs s vals :
  let d' := do_header_calls cs (Store.clear d) in
  Store.m_paths (Store.clear d) = []
  ∧ (Store.m_paths d' = []
     ∧ Store.m_height d' = Store.m_height d
     ∧ Store.m_width d' = Store.m_width d
     ∧ Store.m_sampleCount d' = Store.m_sampleCount d)
  ∧ (Store.isCollecting d' = true →
     addPathData s vals d' = (Thrown out_of_range, d')
     ∧ (Store.m_currentDepthIdx d' ≠ NEG1U →
        addIntersectionData s vals d' = (Thrown out_of_range, d'))
     ∧ (Store.m_currentDepthIdx d' = NEG1U →
        addIntersectionData s vals d' = (Returned tt, d'))).
Proof.
  cbv zeta. split; [done |].
  destruct (header_calls_keep_empty cs (Store.clear d) eq_refl)
    as (He & Hh & Hw & Hc).
  split; [done |].
  intros Hcoll.
  exact (empty_store_rejects_writes _ s vals He Hcoll).
Qed.

End Writes.

Lemma disabled_add_is_noop_witness :
  let d := Store.disable Records.store_2_2_1_at_0 in
  Records.addPath "k" [7] d = (Returned tt, d)
  ∧ Records.addIntersection "k" [7] d = (Returned tt, d).
Proof.
  exact (disabled_add_is_noop Records.path_add Records.isect_add
           Records.intersectionAt
           (Store.disable Records.store_2_2_1_at_0) "k" [7] eq_refl).
Defined.

Lemma add_is_bounds_checked_witness :
  (let d := Store.clear Records.store_2_2_1_at_0 in
   Records.addPath "k" [7] d = (Thrown out_of_range, d)
   ∧ Records.addIntersection "k" [7] d = (Thrown out_of_range, d))
  ∧ (Records.addPath "k" [7] Records.store_2_2_1_at_0).1 = Returned tt
  ∧ (Records.addIntersection "k" [7] Records.store_2_2_1_at_0).1 = Returned tt.
Proof.
  split.
  - destruct (add_is_bounds_checked Records.path_add Records.isect_add
                Records.intersectionAt
                (Store.clear Records.store_2_2_1_at_0) "k" [7] eq_refl)
      as [Hout _].
    destruct Hout as [Hp Hi]; [vm_compute; intros [_ H]; discriminate H |].
    split; [exact Hp |]. apply Hi. vm_compute. discriminate.
  - destruct (add_is_bounds_checked Records.path_add Records.isect_add
                Records.intersectionAt
                Records.store_2_2_1_at_0 "k" [7] eq_refl)
      as [_ Hin].
    apply Hin. vm_compute. split; [discriminate | reflexivity].
Defined.

Lemma intersection_write_needs_depth_witness :
  Records.addIntersection "k" [7] Records.store_2_2_1
  = (Returned tt, Records.store_2_2_1)
  ∧ Records.addIntersection "k" [7] Records.store_2_2_1_at_0
    = (Returned tt,
       Store.set_paths
         [Records.empty_path;
          Records.mkPath [] [Records.mkIntersection [("k", [7])]];
          Records.empty_path; Records.empty_path]
         Records.store_2_2_1_at_0).
Proof.
  split.
  - destruct (intersection_write_needs_depth Records.isect_add
                Records.intersectionAt Records.store_2_2_1 "k" [7])
      as (_ & Hunset & _).
    apply Hunset. reflexivity.
  - destruct (intersection_write_needs_depth Records.isect_add
                Records.intersectionAt Records.store_2_2_1_at_0 "k" [7])
      as (_ & _ & Hset).
    apply (Hset ltac:(vm_compute; discriminate) eq_refl Records.empty_path).
    reflexivity.
Defined.

(** With the pixel cursor on [(1, 0)] of a 2 x 2 x 1 store and no sample index
    set, the index wraps to [1*1 + (2^32 - 1) = 0 (mod 2^32)]: the value lands
    in the record of pixel [(0, 0)]. *)
Lemma unset_sample_index_is_used_witness :
  Store.get_current_id Records.store_2_2_1 1 0 NEG1U = 0
  ∧ Records.addPath "k" [7] Records.store_2_2_1
    = (Returned tt,
       Store.set_paths
         [Records.mkPath [("k", [7])] [];
          Records.empty_path; Records.empty_path; Records.empty_path]
         Records.store_2_2_1)
  ∧ (let d := Store.clear Records.store_2_2_1 in
     Records.addPath "k" [7] d = (Thrown out_of_range, d)).
Proof.
  split; [reflexivity |]. split.
  - destruct (unset_sample_index_is_used Records.path_add
                Records.store_2_2_1 "k" [7] eq_refl eq_refl)
      as (_ & _ & _ & Hwrite).
    apply (Hwrite Records.empty_path). reflexivity.
  - destruct (unset_sample_index_is_used Records.path_add
                (Store.clear Records.store_2_2_1) "k" [7] eq_refl eq_refl)
      as (_ & _ & Hthrow & _).
    apply Hthrow. vm_compute. discriminate.
Defined.

Lemma clear_leaves_no_record_witness :
  let d := Store.do_header_calls Records.path_add Records.isect_add
             Records.intersectionAt
             [Store.CallDisable; Store.CallEnable]
             (Store.clear Records.store_2_2_1_at_0) in
  Store.m_paths d = []
  ∧ Records.addPath "k" [7] d = (Thrown out_of_range, d)
  ∧ Records.addIntersection "k" [7] d = (Thrown out_of_range, d).
Proof.
  destruct (clear_leaves_no_record Records.path_add Records.isect_add
              Records.intersectionAt Records.store_2_2_1_at_0
              [Store.CallDisable; Store.CallEnable] "k" [7])
    as (_ & (He & _) & Hthrow).
  split; [exact He |].
  destruct (Hthrow eq_refl) as (Hp & Hi & _).
  split; [exact Hp |]. apply Hi. vm_compute. discriminate.
Defined.

(** C9, as stated, fails for [addIntersectionData]: on a store that was
    constructed, enabled and cleared, the depth index is still unset, and the
    call returns normally instead of throwing. *)
Lemma clear_then_addIntersectionData_returns :
  let d : Records.store := Store.clear (Store.enable (Store.construct 2 2 1 0 0)) in
  Store.m_paths d = []
  ∧ Store.isCollecting d = true
  ∧ Records.addIntersection "k" [7] d = (Returned tt, d)
  ∧ (Records.addIntersection "k" [7] d).1 ≠ Thrown out_of_range.
Proof. repeat split. discriminate. Qed.

(** ** The heatmap engine *)

Section HeatmapTrees.

Context {Point Region Color Weight : Type}.
Context (contains : Region → Point → bool).
Context (subdivide : Region → list Region).
Context (zero_color : Color) (zero_weight : Weight).
Context (add_weighted : Color → Color → Weight → Color).
Context (add_weight : Weight → Weight → Weight).
Context (saturated : N → bool).

Local Open Scope N_scope.

Local Abbreviation Node := (Heatmap.Node Region Color Weight).
Local Abbreviation total f l := (foldr (λ x acc, f x + acc) 0 l).
Local Abbreviation clear_node := (Heatmap.clear_node zero_color zero_weight).
Local Abbreviation fresh_leaf := (Heatmap.fresh_leaf zero_color zero_weight).
Local Abbreviation leaf_add := (Heatmap.leaf_add add_weighted add_weight).
Local Abbreviation route_leaf :=
  (Heatmap.route_leaf contains add_weighted add_weight).
Local Abbreviation add_node :=
  (Heatmap.add_node contains subdivide zero_color zero_weight add_weighted
                    add_weight saturated).
Local Abbreviation cannot_pay := (Heatmap.cannot_pay subdivide).
Local Abbreviation descent_ok :=
  (Heatmap.descent_ok subdivide zero_color zero_weight).

(** Induction on a tree with the hypothesis for every child. *)
Lemma Node_children_ind (P : Node → Prop) :
  (∀ r v w k cs, Forall P cs → P (Heatmap.mkNode r v w k cs)) → ∀ n, P n.
Proof.
  intros step. fix IH 1. intros [r v w k cs]. apply step.
  induction cs as [| c cs IHcs]; constructor; [apply IH | exact IHcs].
Qed.

(** Sums over a vector. *)
Lemma total_insert {A} (f : A → N) (l : list A) i x y :
  l !! i = Some x → total f (<[i:=y]> l) + f x = total f l + f y.
Proof.
  revert i. induction l as [| a l IH]; intros [| i] Hl; simplify_eq/=.
  - lia.
  - specialize (IH _ Hl). lia.
Qed.


Lemma total_fmap_zero {A B} (f : B → N) (g : A → B) (l : list A) :
  Forall (λ x, f (g x) = 0) l → total f (g <$> l) = 0.
Proof.
  induction 1 as [| x l Hx _ IH]; [done |].
  rewrite fmap_cons. cbn [foldr]. by rewrite Hx, IH.
Qed.

Lemma total_fresh (rs : list Region) :
  total Heatmap.node_total (fresh_leaf <$> rs) = N.of_nat (length rs).
Proof.
  induction rs as [| r rs IH]; [done |].
  rewrite fmap_cons, length_cons, Nat2N.inj_succ.
  cbn [foldr]. rewrite IH. simpl. lia.
Qed.

Lemma total_fresh_samples (rs : list Region) :
  total Heatmap.samples_held (fresh_leaf <$> rs) = 0.
Proof.
  induction rs as [| r rs IH]; [done |].
  rewrite fmap_cons. cbn [foldr]. by rewrite IH.
Qed.


Lemma clear_node_samples (n : Node) : Heatmap.samples_held (clear_node n) = 0.
Proof.
  induction n as [r v w k cs IH] using Node_children_ind.
  cbn [Heatmap.clear_node Heatmap.samples_held].
  by rewrite total_fmap_zero.
Qed.

Lemma clear_node_fresh (rs : list Region) :
  clear_node <$> (fresh_leaf <$> rs) = fresh_leaf <$> rs.
Proof.
  induction rs as [| r rs IH]; [done |].
  rewrite !fmap_cons. by rewrite IH.
Qed.

Lemma leaf_add_total v w (n : Node) :
  Heatmap.node_total (leaf_add v w n) = Heatmap.node_total n.
Proof. by destruct n. Qed.

Lemma leaf_add_samples v w (n : Node) :
  Heatmap.samples_held (leaf_add v w n) = Heatmap.samples_held n + 1.
Proof. destruct n; simpl. lia. Qed.

Lemma leaf_add_clear v w (n : Node) : clear_node (leaf_add v w n) = clear_node n.
Proof. by destruct n. Qed.

(** The sample lands in exactly one of the siblings. *)
Lemma route_leaf_spec p v w (cs : list Node) :
  total Heatmap.node_total (route_leaf p v w cs) = total Heatmap.node_total cs
  ∧ clear_node <$> route_leaf p v w cs = clear_node <$> cs
  ∧ (cs ≠ [] →
     total Heatmap.samples_held (route_leaf p v w cs)
     = total Heatmap.samples_held cs + 1).
Proof.
  induction cs as [| c rest (IHt & IHc & IHs)]; [done |].
  cbn [Heatmap.route_leaf].
  destruct (Heatmap.takes contains p c rest) eqn:Htake.
  - rewrite !fmap_cons. cbn [foldr].
    rewrite leaf_add_total, leaf_add_clear, leaf_add_samples.
    split_and!; [done | done | intros _; lia].
  - apply orb_false_iff in Htake as [_ Hrest].
    apply bool_decide_eq_false in Hrest.
    rewrite !fmap_cons. cbn [foldr].
    rewrite IHt, IHc, (IHs Hrest).
    split_and!; [done | done | intros _; lia].
Qed.

Lemma route_spec p (f : Node → Node * N) b (cs : list Node) :
  cs ≠ [] → Forall (λ c, descent_ok b c (f c)) cs →
  let res := Heatmap.route contains p f b cs in
  total Heatmap.node_total res.1 + res.2 = total Heatmap.node_total cs + b
  ∧ total Heatmap.samples_held res.1 = total Heatmap.samples_held cs + 1
  ∧ (cannot_pay b → clear_node <$> res.1 = clear_node <$> cs ∧ res.2 = b).
Proof.
  intros Hne Hall. cbv zeta. revert Hne.
  induction Hall as [| c rest Hc Hrest IH]; intros Hne; [done |].
  cbn [Heatmap.route].
  destruct Hc as (Ht & Hs & Hk).
  destruct (Heatmap.takes contains p c rest) eqn:Htake.
  - destruct (f c) as [c' b']. cbn [fst snd foldr] in *.
    rewrite !fmap_cons.
    split_and!; [lia | lia |].
    intros Hpay. destruct (Hk Hpay) as [-> ->]. done.
  - apply orb_false_iff in Htake as [_ Hnil].
    apply bool_decide_eq_false in Hnil.
    destruct (IH Hnil) as (IHt & IHs & IHk).
    destruct (Heatmap.route contains p f b rest) as [rest' b'].
    cbn [fst snd foldr] in *. rewrite !fmap_cons.
    split_and!; [lia | lia |].
    intros Hpay. destruct (IHk Hpay) as [-> ->]. done.
Qed.

Lemma add_node_spec p v w b (n : Node) : descent_ok b n (add_node p v w b n).
Proof.
  revert b. induction n as [r val wt k cs IH] using Node_children_ind.
  intros b. destruct cs as [| c rest].
  - (* a leaf *)
    cbn [Heatmap.add_node].
    destruct (saturated k && negb (bool_decide (subdivide r = []))
              && (N.of_nat (length (subdivide r)) <=? b)) eqn:Hsub.
    + apply andb_true_iff in Hsub as [Hsub Hle].
      apply andb_true_iff in Hsub as [_ Hne].
      apply negb_true_iff, bool_decide_eq_false in Hne.
      apply N.leb_le in Hle.
      destruct (route_leaf_spec p v w (fresh_leaf <$> subdivide r))
        as (Ht & Hc & Hs).
      unfold Heatmap.descent_ok.
      cbn [fst snd Heatmap.node_total Heatmap.samples_held foldr].
      rewrite Ht, total_fresh, Hs, total_fresh_samples;
        [| by destruct (subdivide r)].
      split_and!; [lia | lia |].
      intros Hpay. destruct (Hpay r) as [? | ?]; [done | lia].
    + unfold descent_ok.
      cbn [fst snd Heatmap.leaf_add Heatmap.node_total Heatmap.samples_held
           foldr].
      split_and!; [lia | lia | done].
  - (* an internal node *)
    cbn [Heatmap.add_node].
    pose proof (route_spec p (add_node p v w b) b (c :: rest)
                  ltac:(done)) as Hroute.
    destruct Hroute as (Ht & Hs & Hk).
    { eapply Forall_impl; [exact IH |]. intros x Hx. apply Hx. }
    destruct (Heatmap.route contains p (add_node p v w b) b (c :: rest))
      as [cs' b'].
    unfold Heatmap.descent_ok. cbn [fst snd] in *.
    cbn [Heatmap.node_total Heatmap.samples_held Heatmap.clear_node].
    split_and!; [lia | lia |].
    intros Hpay. destruct (Hk Hpay) as [Heq ->]. by rewrite Heq.
Qed.



End HeatmapTrees.

Section HeatmapCalls.

Context {Point Region Color Weight : Type}.
Context (contains : Region → Point → bool).
Context (subdivide : Region → list Region).
Context (zero_color : Color) (zero_weight : Weight).
Context (add_weighted : Color → Color → Weight → Color).
Context (add_weight : Weight → Weight → Weight).
Context (saturated : N → bool).
Context (finalized_value :
           bool → N → list (Color * Weight * N) → Color → Weight → N → Color).

Local Open Scope N_scope.

Local Abbreviation Node := (Heatmap.Node Region Color Weight).
Local Abbreviation HeatmapData := (Heatmap.HeatmapData Region Color Weight).
Local Abbreviation HeatmapApi := (Heatmap.HeatmapApi Region Color Weight).
Local Abbreviation call := (Heatmap.call Point Region Color Weight).
Local Abbreviation total f l := (foldr (λ x acc, f x + acc) 0 l).
Local Abbreviation construct := (@Heatmap.construct Region Color Weight).
Local Abbreviation clear_node := (Heatmap.clear_node zero_color zero_weight).
Local Abbreviation clear_mesh := (Heatmap.clear_mesh zero_color zero_weight).
Local Abbreviation topology := (Heatmap.topology zero_color zero_weight).
Local Abbreviation reset := (Heatmap.reset zero_color zero_weight).
Local Abbreviation enable := (Heatmap.enable zero_color zero_weight).
Local Abbreviation initialize := (Heatmap.initialize zero_color zero_weight).
Local Abbreviation initialize_default :=
  (Heatmap.initialize_default zero_color zero_weight).
Local Abbreviation finalize := (Heatmap.finalize finalized_value).
Local Abbreviation add_node :=
  (Heatmap.add_node contains subdivide zero_color zero_weight add_weighted
                    add_weight saturated).
Local Abbreviation addSample :=
  (Heatmap.addSample contains subdivide zero_color zero_weight add_weighted
                     add_weight saturated).
Local Abbreviation do_call :=
  (Heatmap.do_call contains subdivide zero_color zero_weight add_weighted
                   add_weight saturated finalized_value).
Local Abbreviation run :=
  (Heatmap.run contains subdivide zero_color zero_weight add_weighted
               add_weight saturated finalized_value).
Local Abbreviation cannot_pay := (Heatmap.cannot_pay subdivide).

Implicit Types (h : HeatmapApi) (n : Node) (m : HeatmapData) (c : call).

(** *** Counting nodes *)

Lemma node_total_descendants n :
  Heatmap.node_total n = 1 + Heatmap.descendants n.
Proof. by destruct n. Qed.







Lemma samples_recorded_clear (data : list HeatmapData) :
  Heatmap.samples_recorded (clear_mesh <$> data) = 0.
Proof.
  unfold Heatmap.samples_recorded. apply total_fmap_zero, Forall_true.
  intros m. unfold Heatmap.samples_in_mesh, Heatmap.clear_mesh. simpl.
  apply total_fmap_zero, Forall_true. intros n.
  apply (clear_node_samples zero_color zero_weight).
Qed.

(** *** One sample *)

(** A sample for a known face of a collecting heatmap: the data afterwards
    is the data before with the face's tree replaced by its descent. *)
Lemma addSample_known mesh_id p face_id value weight h m n :
  Heatmap.is_collecting h = true →
  Heatmap.heatmap_data h !! N.to_nat mesh_id = Some m →
  Heatmap.roots m !! N.to_nat face_id = Some n →
  addSample mesh_id p face_id value weight h
  = (Returned tt,
     Heatmap.set_sampled
       (<[N.to_nat mesh_id :=
            Heatmap.mkHeatmapData
              (<[N.to_nat face_id :=
                   (add_node p value weight (Heatmap.budget_left h) n).1]>
                 (Heatmap.roots m))]> (Heatmap.heatmap_data h))
       (add_node p value weight (Heatmap.budget_left h) n).2 h).
Proof.
  intros Hc Hm Hn. unfold Heatmap.addSample. rewrite Hc, Hm, Hn.
  by destruct (add_node _ _ _ _ _).
Qed.

(** Otherwise nothing changes. *)
Lemma addSample_otherwise mesh_id p face_id value weight h :
  Heatmap.is_collecting h = false ∨ ¬ Heatmap.known_face h mesh_id face_id →
  (addSample mesh_id p face_id value weight h).2 = h.
Proof.
  intros Hcase. unfold Heatmap.addSample.
  destruct (Heatmap.is_collecting h); [| done].
  destruct Hcase as [? | Hno]; [done |].
  destruct (Heatmap.heatmap_data h !! N.to_nat mesh_id) as [m |] eqn:Hm;
    [| done].
  destruct (Heatmap.roots m !! N.to_nat face_id) as [n |] eqn:Hn; [| done].
  destruct Hno. by exists m, n.
Qed.

Lemma known_face_dec h mesh_id face_id :
  Heatmap.known_face h mesh_id face_id ∨ ¬ Heatmap.known_face h mesh_id face_id.
Proof.
  unfold Heatmap.known_face.
  destruct (Heatmap.heatmap_data h !! N.to_nat mesh_id) as [m |] eqn:Hm.
  - destruct (Heatmap.roots m !! N.to_nat face_id) as [n |] eqn:Hn.
    + left. by exists m, n.
    + right. intros (m' & n' & Hm' & Hn'). congruence.
  - right. intros (m' & n' & Hm' & Hn'). congruence.
Qed.

(** The effect of one [addSample] on the counts, the counter and the
    flags. *)
Lemma addSample_spec mesh_id p face_id value weight h :
  let h' := (addSample mesh_id p face_id value weight h).2 in
  Heatmap.subdivision_nodes (Heatmap.heatmap_data h') + Heatmap.budget_left h'
  = Heatmap.subdivision_nodes (Heatmap.heatmap_data h) + Heatmap.budget_left h
  ∧ Heatmap.subdivision_budget h' = Heatmap.subdivision_budget h
  ∧ Heatmap.finalized h' = Heatmap.finalized h
  ∧ Heatmap.is_collecting h' = Heatmap.is_collecting h
  ∧ (cannot_pay (Heatmap.budget_left h) →
     topology (Heatmap.heatmap_data h') = topology (Heatmap.heatmap_data h)
     ∧ Heatmap.budget_left h' = Heatmap.budget_left h)
  ∧ (Heatmap.is_collecting h = true → Heatmap.known_face h mesh_id face_id →
     Heatmap.samples_recorded (Heatmap.heatmap_data h')
     = Heatmap.samples_recorded (Heatmap.heatmap_data h) + 1).
Proof.
  cbv zeta.
  destruct (Heatmap.is_collecting h) eqn:Hc;
    [destruct (known_face_dec h mesh_id face_id) as [(m & n & Hm & Hn) | Hno] |].
  - rewrite (addSample_known _ p _ value weight h m n Hc Hm Hn).
    pose proof (add_node_spec contains subdivide zero_color zero_weight
                  add_weighted add_weight saturated
                  p value weight (Heatmap.budget_left h) n)
      as (Ht & Hs & Hk).
    destruct (add_node p value weight (Heatmap.budget_left h) n) as [n' b'].
    cbn [fst snd] in *. cbn [Heatmap.set_sampled Heatmap.heatmap_data
      Heatmap.budget_left Heatmap.subdivision_budget Heatmap.finalized
      Heatmap.is_collecting].
    rewrite !node_total_descendants in Ht.
    set (m' := Heatmap.mkHeatmapData (<[N.to_nat face_id := n']> (Heatmap.roots m))).
    assert (Hd1 : Heatmap.subdivided_in_mesh m' + Heatmap.descendants n
                  = Heatmap.subdivided_in_mesh m + Heatmap.descendants n')
      by exact (total_insert Heatmap.descendants _ _ _ n' Hn).
    assert (Hs1 : Heatmap.samples_in_mesh m' + Heatmap.samples_held n
                  = Heatmap.samples_in_mesh m + Heatmap.samples_held n')
      by exact (total_insert Heatmap.samples_held _ _ _ n' Hn).
    pose proof (total_insert Heatmap.subdivided_in_mesh _ _ _ m' Hm) as Hd2.
    pose proof (total_insert Heatmap.samples_in_mesh _ _ _ m' Hm) as Hs2.
    unfold Heatmap.subdivision_nodes, Heatmap.samples_recorded.
    split_and!; [lia | done | done | done | | intros _ _; lia].
    intros Hpay. destruct (Hk Hpay) as [Hclear ->]. split; [| done].
    unfold Heatmap.topology. rewrite list_fmap_insert.
    apply list_insert_id. rewrite list_lookup_fmap, Hm. simpl. f_equal.
    unfold Heatmap.clear_mesh, m'. cbn [Heatmap.roots]. f_equal.
    rewrite list_fmap_insert, Hclear. symmetry.
    apply list_insert_id. by rewrite list_lookup_fmap, Hn.
  - rewrite addSample_otherwise by (by right).
    split_and!; try done; intros _ Hk; by destruct Hno.
  - rewrite addSample_otherwise by (by left).
    split_and!; done.
Qed.

(** *** Runs of calls *)

Local Ltac fields :=
  cbn [Heatmap.heatmap_data Heatmap.budget_left Heatmap.subdivision_budget
       Heatmap.finalized Heatmap.is_collecting].

Lemma run_snoc cs c h : run (cs ++ [c]) h = do_call c (run cs h).
Proof. unfold Heatmap.run. by rewrite foldl_app. Qed.





(** *** Finalization *)

Lemma do_call_finalized c h :
  Heatmap.finalized (do_call c h)
  = match c with
    | Heatmap.Finalize => true
    | Heatmap.Disable | Heatmap.AddSample _ _ _ _ _ => Heatmap.finalized h
    | _ => false
    end.
Proof.
  destruct c as [meshes [b |] | | | | mesh_id p face_id value weight |];
    cbn [Heatmap.do_call]; try done.
  - unfold Heatmap.enable, Heatmap.set_is_collecting. fields.
    by destruct (Heatmap.finalized h) eqn:Hf.
  - by destruct (addSample_spec mesh_id p face_id value weight h)
      as (_ & _ & Hf & _).
Qed.

Lemma finalized_since_reset_nil :
  ¬ Heatmap.finalized_since_reset ([] : list call).
Proof. intros (pre & post & Heq & _). by destruct pre. Qed.

Lemma finalized_since_reset_snoc cs c :
  Heatmap.finalized_since_reset (cs ++ [c])
  ↔ c = Heatmap.Finalize
    ∨ (Heatmap.resets c = false ∧ Heatmap.finalized_since_reset cs).
Proof.
  split.
  - intros (pre & post & Heq & Hpost).
    destruct post as [| x post _] using rev_ind.
    + left. apply app_inj_tail in Heq as [_ ->]. done.
    + right. rewrite app_comm_cons, app_assoc in Heq.
      apply app_inj_tail in Heq as [-> ->].
      apply Forall_app in Hpost as [Hpost Hx].
      split; [by inversion Hx |]. by exists pre, post.
  - intros [-> | (Hc & pre & post & -> & Hpost)].
    + exists cs, []. by split.
    + exists pre, (post ++ [c]). split.
      * by rewrite <- app_assoc.
      * apply Forall_app. split; [done |]. by constructor.
Qed.

(** The flag records exactly that [finalize] came after the last reset. *)
Lemma finalized_run cs :
  Heatmap.finalized (run cs construct) = true
  ↔ Heatmap.finalized_since_reset cs.
Proof.
  induction cs as [| c cs IH] using rev_ind.
  - split; [done |]. intros H. by destruct finalized_since_reset_nil.
  - rewrite run_snoc, do_call_finalized, finalized_since_reset_snoc.
    destruct c; simpl; rewrite ?IH;
      (split; [first [done | by left | by right] | by intros [? | [? ?]]]).
Qed.

(** [getHeatmapData] by cases on the flag. *)
Lemma getHeatmapData_cases h :
  (Heatmap.finalized h = false ∧
   Heatmap.getHeatmapData h
   = (Thrown (logic_error "finalize the data first"), h))
  ∨ (Heatmap.finalized h = true ∧
     Heatmap.getHeatmapData h = (Returned (Heatmap.heatmap_data h), h)).
Proof.
  unfold Heatmap.getHeatmapData.
  destruct (Heatmap.finalized h); [right | left]; done.
Qed.

(** C5: after any sequence of calls on a heatmap, [getHeatmapData] throws
    the logic error exactly when [finalize] has not been performed since
    the last reset; once finalized it returns the heatmap data, throws
    nothing and changes nothing, and [hasData] is true. *)
Theorem getHeatmapData_needs_finalize cs :
  let h := run cs construct in
  ((Heatmap.getHeatmapData h).1 = Thrown (logic_error "finalize the data first")
   ↔ ¬ Heatmap.finalized_since_reset cs)
  ∧ ((∃ e, (Heatmap.getHeatmapData h).1 = Thrown e)
     ↔ ¬ Heatmap.finalized_since_reset cs)
  ∧ (Heatmap.finalized_since_reset cs →
     Heatmap.getHeatmapData h = (Returned (Heatmap.heatmap_data h), h)
     ∧ Heatmap.hasData h = true).
Proof.
  cbv zeta. pose proof (finalized_run cs) as Hrun.
  unfold Heatmap.hasData.
  destruct (getHeatmapData_cases (run cs construct)) as [[Hf ->] | [Hf ->]];
    cbn [fst]; rewrite Hf in *.
  - assert (¬ Heatmap.finalized_since_reset cs)
      by (intros H; by apply Hrun in H).
    split_and!; [done | | done]. split; [done | eauto].
  - assert (Heatmap.finalized_since_reset cs) by (by apply Hrun).
    split_and!; [| | done]; split; try done.
    intros [e He]. done.
Qed.

(** C6: [enable] on a finalized heatmap performs [reset] and then sets the
    collecting flag: the result is collecting and not finalized, and its
    data is the retained topology with every accumulator cleared.  On a
    heatmap that is not finalized [enable] only sets the collecting flag;
    the accumulated data stays as it is. *)
Theorem enable_rearms_finalized h :
  (Heatmap.finalized h = true →
     enable h = Heatmap.set_is_collecting true (reset h)
     ∧ Heatmap.isCollecting (enable h) = true
     ∧ Heatmap.finalized (enable h) = false
     ∧ Heatmap.heatmap_data (enable h) = topology (Heatmap.heatmap_data h)
     ∧ Heatmap.samples_recorded (Heatmap.heatmap_data (enable h)) = 0)
  ∧ (Heatmap.finalized h = false →
     enable h = Heatmap.set_is_collecting true h
     ∧ Heatmap.isCollecting (enable h) = true
     ∧ Heatmap.finalized (enable h) = false
     ∧ Heatmap.heatmap_data (enable h) = Heatmap.heatmap_data h).
Proof.
  unfold Heatmap.enable. split; intros Hf; rewrite Hf.
  - split_and!; try done.
    unfold Heatmap.set_is_collecting, Heatmap.reset. fields.
    apply samples_recorded_clear.
  - split_and!; done.
Qed.


End HeatmapCalls.



Lemma getHeatmapData_needs_finalize_witness :
  let h := Strip.run (Strip.six_samples ++ [Heatmap.Finalize]) Heatmap.construct in
  Heatmap.getHeatmapData h = (Returned (Heatmap.heatmap_data h), h)
  ∧ Heatmap.hasData h = true.
Proof.
  apply (getHeatmapData_needs_finalize Strip.contains Strip.subdivide 0 0
           Strip.add_weighted Strip.add_weight Strip.saturated
           Strip.finalized_value (Strip.six_samples ++ [Heatmap.Finalize])).
  exists Strip.six_samples, []. split; [reflexivity | constructor].
Defined.

Lemma enable_rearms_finalized_witness :
  let h := Strip.run (Strip.six_samples ++ [Heatmap.Finalize]) Heatmap.construct in
  Heatmap.samples_recorded (Heatmap.heatmap_data h) = 6%N
  ∧ Heatmap.isCollecting (Heatmap.enable 0 0 h) = true
  ∧ Heatmap.finalized (Heatmap.enable 0 0 h) = false
  ∧ Heatmap.samples_recorded (Heatmap.heatmap_data (Heatmap.enable 0 0 h)) = 0%N
  ∧ Heatmap.subdivision_nodes (Heatmap.heatmap_data (Heatmap.enable 0 0 h)) = 2%N.
Proof.
  cbv zeta.
  destruct (enable_rearms_finalized 0 0
              (Strip.run (Strip.six_samples ++ [Heatmap.Finalize])
                         Heatmap.construct))
    as [Hfin _].
  destruct (Hfin eq_refl) as (_ & Hc & Hf & _ & Hs).
  split_and!; [reflexivity | exact Hc | exact Hf | exact Hs | reflexivity].
Defined.

(** ** Before the first [enable] *)

Section BeforeEnable.

Context {T PathData IntersectionData : Type}.
Context (path_add : string → list T → PathData → PathData).
Context (isect_add : string → list T → IntersectionData → IntersectionData).
Context (intersectionAt :
           Z → (IntersectionData → IntersectionData) → PathData → PathData).
Context {Point Region Color Weight : Type}.
Context (contains : Region → Point → bool).
Context (subdivide : Region → list Region).
Context (zero_color : Color) (zero_weight : Weight).
Context (add_weighted : Color → Color → Weight → Color).
Context (add_weight : Weight → Weight → Weight).
Context (saturated : N → bool).
Context (finalized_value :
           bool → N → list (Color * Weight * N) → Color → Weight → N → Color).





End BeforeEnable.

(** The six samples of [Strip.six_samples]: the third finds the root
    saturated and splits it (two nodes, one unit of budget left); the child
    [[0, 4)] saturates in turn, but the counter no longer pays for two more
    nodes, and the samples keep accumulating in it. *)
Example six_samples_on_strip :
  Heatmap.heatmap_data (Strip.run Strip.six_samples Heatmap.construct)
  = [Heatmap.mkHeatmapData
       [Heatmap.mkNode (0, 8) 20 2 2
          [Heatmap.mkNode (0, 4) 40 4 4 []; Heatmap.mkNode (4, 8) 0 0 0 []]]]
  ∧ Heatmap.budget_left (Strip.run Strip.six_samples Heatmap.construct) = 1%N.
Proof. split; reflexivity. Qed.



Example nothing_recorded_on_strip :
  Strip.run (Heatmap.sample_calls [(0%N, 1, 0%N, 10, 1); (0%N, 5, 0%N, 10, 1)])
            Heatmap.construct
  = Heatmap.construct.
Proof. reflexivity. Qed.

(** * Further properties of the header's functions *)

(** ** What a call changes in the store *)

Section StoreCalls.

Context {T PathData IntersectionData : Type}.
Context (path_add : string → list T → PathData → PathData).
Context (isect_add : string → list T → IntersectionData → IntersectionData).
Context (intersectionAt :
           Z → (IntersectionData → IntersectionData) → PathData → PathData).

Implicit Types (d : Store.DataApi PathData) (s : string) (vals : list T).

Local Abbreviation addPathData := (Store.addPathData path_add).
Local Abbreviation addIntersectionData :=
  (Store.addIntersectionData isect_add intersectionAt).
Local Abbreviation do_add := (Store.do_add path_add isect_add intersectionAt).
Local Abbreviation do_adds := (Store.do_adds path_add isect_add intersectionAt).
Local Abbreviation do_header_call :=
  (Store.do_header_call path_add isect_add intersectionAt).
Local Abbreviation do_header_calls :=
  (Store.do_header_calls path_add isect_add intersectionAt).
Local Abbreviation add_effect :=
  (Store.add_effect path_add isect_add intersectionAt).

Lemma current_index_range d : is_u32 (Store.current_index d).
Proof. apply get_current_id_range. Qed.

Lemma set_paths_same d : Store.set_paths (Store.m_paths d) d = d.
Proof. by destruct d. Qed.

(** [vector::at] followed by a change of the record: the object afterwards,
    whatever the index. *)
Lemma modify_at_object d i f :
  (Store.modify_at i f d).2 = d
  ∨ ∃ p, Store.m_paths d !! Z.to_nat i = Some p
         ∧ Store.modify_at i f d
           = (Returned tt,
              Store.set_paths (<[Z.to_nat i := f p]> (Store.m_paths d)) d).
Proof.
  unfold Store.modify_at.
  destruct (Store.m_paths d !! Z.to_nat i) as [p |] eqn:Hp; [right | left];
    [by exists p | done].
Qed.

(** Every [add*] call either leaves the object as it is or replaces the
    record at the current index. *)
Lemma do_add_object c d :
  (do_add c d).2 = d
  ∨ ∃ p q, Store.m_paths d !! Z.to_nat (Store.current_index d) = Some p
           ∧ do_add c d
             = (Returned tt,
                Store.set_paths
                  (<[Z.to_nat (Store.current_index d) := q]> (Store.m_paths d)) d).
Proof.
  destruct c as [s vals | s vals]; cbn [Store.do_add].
  - unfold Store.addPathData. destruct (Store.m_isCollecting d); [| by left].
    destruct (modify_at_object d (Store.current_index d) (path_add s vals))
      as [? | (p & Hp & Heq)]; [by left | right]. by eexists p, _.
  - unfold Store.addIntersectionData. destruct (_ && _); [| by left].
    destruct (modify_at_object d (Store.current_index d)
                (intersectionAt (Store.m_currentDepthIdx d) (isect_add s vals)))
      as [? | (p & Hp & Heq)]; [by left | right]. by eexists p, _.
Qed.

(** A call that passes the collection guard and finds its record. *)
Lemma do_add_in_range c d p :
  Store.m_isCollecting d = true →
  Store.m_paths d !! Z.to_nat (Store.current_index d) = Some p →
  do_add c d
  = (Returned tt,
     Store.set_paths
       (<[Z.to_nat (Store.current_index d) := add_effect d c p]> (Store.m_paths d))
       d).
Proof.
  intros Hc Hp. destruct c as [s vals | s vals];
    cbn [Store.do_add Store.add_effect].
  - unfold Store.addPathData. rewrite Hc. by apply modify_at_in_range.
  - unfold Store.addIntersectionData. rewrite Hc. cbn [andb].
    destruct (Store.m_currentDepthIdx d =? NEG1U); cbn [negb].
    + by rewrite list_insert_id, set_paths_same.
    + by apply modify_at_in_range.
Qed.

(** X1: a successful [addPathData] replaces exactly one record: the one at
    the current index becomes [add(s, vals)] of what it was, every other
    record, the number of records, the dimensions, the cursor and the
    collection switch stay as they were. *)
Theorem addPathData_writes_one_record d s vals p :
  Store.isCollecting d = true →
  Store.m_paths d !! Z.to_nat (Store.current_index d) = Some p →
  let d' := (addPathData s vals d).2 in
  (addPathData s vals d).1 = Returned tt
  ∧ Store.m_paths d' !! Z.to_nat (Store.current_index d)
    = Some (path_add s vals p)
  ∧ (∀ j, j ≠ Z.to_nat (Store.current_index d) →
          Store.m_paths d' !! j = Store.m_paths d !! j)
  ∧ length (Store.m_paths d') = length (Store.m_paths d)
  ∧ Store.same_cursor d d'
  ∧ Store.isCollecting d' = true.
Proof.
  unfold Store.isCollecting. intros Hc Hp. cbv zeta.
  unfold Store.addPathData. rewrite Hc. fold (Store.current_index d).
  rewrite (modify_at_in_range d _ (path_add s vals) p Hp).
  cbn [fst snd]. unfold Store.set_paths, Store.same_cursor.
  cbn [Store.m_paths Store.m_height Store.m_width Store.m_sampleCount
       Store.m_x Store.m_y Store.m_currentSampleIdx Store.m_currentDepthIdx
       Store.m_isCollecting].
  split_and!; try done.
  - apply list_lookup_insert_eq. by eapply lookup_lt_Some.
  - intros j Hj. by apply list_lookup_insert_ne.
  - apply length_insert.
Qed.

(** X2: a successful [addIntersectionData] with the depth index set replaces
    exactly one record: the one at the current index gets the values added to
    its intersection at the current depth; nothing else changes. *)
Theorem addIntersectionData_writes_one_record d s vals p :
  Store.isCollecting d = true →
  Store.m_currentDepthIdx d ≠ NEG1U →
  Store.m_paths d !! Z.to_nat (Store.current_index d) = Some p →
  let d' := (addIntersectionData s vals d).2 in
  (addIntersectionData s vals d).1 = Returned tt
  ∧ Store.m_paths d' !! Z.to_nat (Store.current_index d)
    = Some (intersectionAt (Store.m_currentDepthIdx d) (isect_add s vals) p)
  ∧ (∀ j, j ≠ Z.to_nat (Store.current_index d) →
          Store.m_paths d' !! j = Store.m_paths d !! j)
  ∧ length (Store.m_paths d') = length (Store.m_paths d)
  ∧ Store.same_cursor d d'
  ∧ Store.isCollecting d' = true.
Proof.
  unfold Store.isCollecting. intros Hc Hd Hp. cbv zeta.
  unfold Store.addIntersectionData. rewrite (depth_guard_set d Hc Hd).
  fold (Store.current_index d).
  rewrite (modify_at_in_range d _ _ p Hp).
  cbn [fst snd]. unfold Store.set_paths, Store.same_cursor.
  cbn [Store.m_paths Store.m_height Store.m_width Store.m_sampleCount
       Store.m_x Store.m_y Store.m_currentSampleIdx Store.m_currentDepthIdx
       Store.m_isCollecting].
  split_and!; try done.
  - apply list_lookup_insert_eq. by eapply lookup_lt_Some.
  - intros j Hj. by apply list_lookup_insert_ne.
  - apply length_insert.
Qed.

(** X3: [addPathData] throws exactly when collection is enabled and the
    current index is not below the number of records; what it throws is
    [out_of_range], and the object is then unchanged. *)
Theorem addPathData_throws_iff d s vals e :
  ((addPathData s vals d).1 = Thrown e
   ↔ e = out_of_range ∧ Store.isCollecting d = true
     ∧ Z.of_nat (length (Store.m_paths d)) ≤ Store.current_index d)
  ∧ ((addPathData s vals d).1 = Thrown e → (addPathData s vals d).2 = d).
Proof.
  pose proof (current_index_range d) as [Hi0 _].
  unfold Store.isCollecting, Store.addPathData, Store.modify_at.
  fold (Store.current_index d).
  destruct (Store.m_isCollecting d); [| split; [split |]; [done | by intros (_ & ? & _) | done]].
  destruct (Store.m_paths d !! Z.to_nat (Store.current_index d)) as [p |] eqn:Hp;
    cbn [fst snd].
  - apply lookup_lt_Some in Hp.
    split; [split |]; [done | intros (_ & _ & ?); lia | done].
  - apply lookup_ge_None_1 in Hp.
    split; [split |]; [| by intros (-> & _) | done].
    intros [= <-]. split_and!; [done | done | lia].
Qed.

(** X4: [addIntersectionData] throws exactly when collection is enabled, the
    depth index is set and the current index is not below the number of
    records; what it throws is [out_of_range], and the object is then
    unchanged. *)
Theorem addIntersectionData_throws_iff d s vals e :
  ((addIntersectionData s vals d).1 = Thrown e
   ↔ e = out_of_range ∧ Store.isCollecting d = true
     ∧ Store.m_currentDepthIdx d ≠ NEG1U
     ∧ Z.of_nat (length (Store.m_paths d)) ≤ Store.current_index d)
  ∧ ((addIntersectionData s vals d).1 = Thrown e
     → (addIntersectionData s vals d).2 = d).
Proof.
  pose proof (current_index_range d) as [Hi0 _].
  unfold Store.isCollecting, Store.addIntersectionData, Store.modify_at.
  fold (Store.current_index d).
  destruct (Store.m_isCollecting d); cbn [andb];
    [| split; [split |]; [done | by intros (_ & ? & _) | done]].
  destruct (Z.eqb_spec (Store.m_currentDepthIdx d) NEG1U) as [Hd | Hd];
    cbn [negb]; [split; [split |]; [done | by intros (_ & _ & ? & _) | done] |].
  destruct (Store.m_paths d !! Z.to_nat (Store.current_index d)) as [p |] eqn:Hp;
    cbn [fst snd].
  - apply lookup_lt_Some in Hp.
    split; [split |]; [done | intros (_ & _ & _ & ?); lia | done].
  - apply lookup_ge_None_1 in Hp.
    split; [split |]; [| by intros (-> & _) | done].
    intros [= <-]. split_and!; [done | done | done | lia].
Qed.

(** An [add*] call keeps the dimensions, the cursor, the switch and the
    number of records. *)
Lemma do_add_frame c d :
  Store.same_cursor d (do_add c d).2
  ∧ length (Store.m_paths (do_add c d).2) = length (Store.m_paths d)
  ∧ Store.m_isCollecting (do_add c d).2 = Store.m_isCollecting d.
Proof.
  destruct (do_add_object c d) as [-> | (p & q & _ & ->)].
  - by unfold Store.same_cursor.
  - cbn [snd]. unfold Store.set_paths, Store.same_cursor.
    cbn [Store.m_paths Store.m_height Store.m_width Store.m_sampleCount
         Store.m_x Store.m_y Store.m_currentSampleIdx Store.m_currentDepthIdx
         Store.m_isCollecting].
    split_and!; try done. apply length_insert.
Qed.

Lemma do_header_call_frame c d :
  let d' := do_header_call c d in
  Store.same_cursor d d'
  ∧ (length (Store.m_paths d') ≤ length (Store.m_paths d))%nat
  ∧ (Store.is_clear c = false →
     length (Store.m_paths d') = length (Store.m_paths d))
  ∧ (Store.is_toggle c = false →
     Store.m_isCollecting d' = Store.m_isCollecting d).
Proof.
  cbv zeta. destruct c as [a | | |]; cbn [Store.do_header_call].
  - destruct (do_add_frame a d) as (Hcur & Hlen & Hsw).
    split_and!; [done | lia | done | done].
  - unfold Store.same_cursor. split_and!; done.
  - unfold Store.same_cursor. split_and!; done.
  - unfold Store.same_cursor. cbn. split_and!; try done. lia.
Qed.

Lemma same_cursor_trans d1 d2 d3 :
  Store.same_cursor d1 d2 → Store.same_cursor d2 d3 → Store.same_cursor d1 d3.
Proof.
  unfold Store.same_cursor.
  intros (? & ? & ? & ? & ? & ? & ?) (? & ? & ? & ? & ? & ? & ?).
  split_and!; congruence.
Qed.

(** X5: no function that the header defines for the store ([add*],
    [enable], [disable], [clear]) changes the dimensions or the addressing
    cursor, and none makes the record array longer; the array keeps its
    length unless [clear] is called, and the collection switch keeps its
    value unless [enable] or [disable] is called. *)
Theorem header_calls_frame cs d :
  let d' := do_header_calls cs d in
  Store.same_cursor d d'
  ∧ (length (Store.m_paths d') ≤ length (Store.m_paths d))%nat
  ∧ (forallb (λ c, negb (Store.is_clear c)) cs = true →
     length (Store.m_paths d') = length (Store.m_paths d))
  ∧ (forallb (λ c, negb (Store.is_toggle c)) cs = true →
     Store.isCollecting d' = Store.isCollecting d).
Proof.
  cbv zeta. unfold Store.isCollecting, Store.do_header_calls.
  revert d. induction cs as [| c cs IH]; intros d.
  - unfold Store.same_cursor. split_and!; done.
  - cbn [foldl forallb].
    destruct (do_header_call_frame c d) as (Hcur & Hle & Hlen & Hsw).
    destruct (IH (do_header_call c d)) as (IHcur & IHle & IHlen & IHsw).
    cbv zeta in *. split_and!.
    + by eapply same_cursor_trans.
    + lia.
    + intros [Hc Hcs]%andb_true_iff. apply negb_true_iff in Hc.
      rewrite (IHlen Hcs). by apply Hlen.
    + intros [Hc Hcs]%andb_true_iff. apply negb_true_iff in Hc.
      rewrite (IHsw Hcs). by apply Hsw.
Qed.

(** X6: while collection is enabled and the current index is in range, a run
    of [add*] calls never throws, and its whole effect is on the record at
    the current index, which receives the calls' changes in call order. *)
Theorem adds_accumulate_in_one_record cs d p :
  Store.isCollecting d = true →
  Store.m_paths d !! Z.to_nat (Store.current_index d) = Some p →
  do_adds cs d
  = (Returned tt,
     Store.set_paths
       (<[Z.to_nat (Store.current_index d) :=
            foldl (λ q c, add_effect d c q) p cs]> (Store.m_paths d)) d).
Proof.
  unfold Store.isCollecting. revert d p.
  induction cs as [| c cs IH]; intros d p Hc Hp.
  - cbn [Store.do_adds foldl]. by rewrite list_insert_id, set_paths_same.
  - cbn [Store.do_adds foldl].
    rewrite (do_add_in_range c d p Hc Hp).
    set (i := Z.to_nat (Store.current_index d)).
    set (d1 := Store.set_paths (<[i := add_effect d c p]> (Store.m_paths d)) d).
    assert (Hp1 : Store.m_paths d1 !! Z.to_nat (Store.current_index d1)
                  = Some (add_effect d c p)).
    { apply list_lookup_insert_eq. by eapply lookup_lt_Some. }
    rewrite (IH d1 (add_effect d c p) Hc Hp1).
    f_equal. unfold d1, Store.set_paths.
    cbn [Store.m_paths Store.m_height Store.m_width Store.m_sampleCount
         Store.m_x Store.m_y Store.m_currentSampleIdx Store.m_currentDepthIdx
         Store.m_isCollecting].
    f_equal. apply list_insert_insert_eq.
Qed.

(** A run of [add*] calls changes nothing but the record array. *)
Lemma do_adds_only_records cs d :
  ∃ ps, (do_adds cs d).2 = Store.set_paths ps d.
Proof.
  revert d. induction cs as [| c cs IH]; intros d.
  - exists (Store.m_paths d). by rewrite set_paths_same.
  - cbn [Store.do_adds].
    destruct (do_add_object c d) as [Hsame | (p & q & _ & Heq)].
    + destruct (do_add c d) as [[[] | e] d1] eqn:Hrun; cbn [snd] in Hsame;
        subst d1; [apply IH |].
      exists (Store.m_paths d). by rewrite set_paths_same.
    + rewrite Heq. destruct (IH (Store.set_paths
        (<[Z.to_nat (Store.current_index d) := q]> (Store.m_paths d)) d))
        as [ps Hps].
      exists ps. by rewrite Hps.
Qed.

(** X7: [clear] discards whatever a run of [add*] calls has recorded: the
    object after the run and [clear] is the object after [clear] alone, also
    when the run ended in an exception. *)
Theorem clear_discards_adds cs d :
  Store.clear (do_adds cs d).2 = Store.clear d.
Proof. destruct (do_adds_only_records cs d) as [ps ->]. done. Qed.

End StoreCalls.

(** ** Writes under a valid cursor *)

Section ValidCursor.

Context {T PathData IntersectionData : Type}.
Context (path_add : string → list T → PathData → PathData).
Context (isect_add : string → list T → IntersectionData → IntersectionData).
Context (intersectionAt :
           Z → (IntersectionData → IntersectionData) → PathData → PathData).

Implicit Types (d : Store.DataApi PathData) (s : string) (vals : list T).

Local Abbreviation addPathData := (Store.addPathData path_add).
Local Abbreviation addIntersectionData :=
  (Store.addIntersectionData isect_add intersectionAt).
Local Abbreviation do_add := (Store.do_add path_add isect_add intersectionAt).

(** Without overflow the index of a valid coordinate is the layout formula
    and lies below the record count. *)
Lemma id_formula_fits d x y c :
  Store.record_count d ≤ 2 ^ 32 → Store.valid_coord d x y c →
  Store.get_current_id d x y c
  = y * (Store.m_width d * Store.m_sampleCount d) + x * Store.m_sampleCount d + c
  ∧ 0 ≤ Store.get_current_id d x y c < Store.record_count d.
Proof.
  intros Hfit (Hx & Hy & Hc).
  pose proof (formula_bounds _ _ _ _ _ _ Hx Hy Hc) as Hb.
  rewrite get_current_id_wrap, wrap32_small;
    unfold Store.record_count, is_u32 in *; lia.
Qed.

Lemma do_add_returns c d :
  0 ≤ Store.current_index d < Z.of_nat (length (Store.m_paths d)) →
  (do_add c d).1 = Returned tt.
Proof.
  intros Hi. destruct c as [s vals | s vals]; cbn [Store.do_add].
  - unfold Store.addPathData. destruct (Store.m_isCollecting d); [| done].
    by apply modify_at_returns.
  - unfold Store.addIntersectionData. destruct (_ && _); [| done].
    by apply modify_at_returns.
Qed.

(** X8: on a store that holds [H*W*C] records, with [H*W*C] at most [2^32],
    a cursor on valid coordinates makes every [addPathData] and
    [addIntersectionData] call return normally. *)
Theorem valid_cursor_write_returns d s vals :
  Store.record_count d ≤ 2 ^ 32 →
  Z.of_nat (length (Store.m_paths d)) = Store.record_count d →
  Store.valid_coord d (Store.m_x d) (Store.m_y d) (Store.m_currentSampleIdx d) →
  (addPathData s vals d).1 = Returned tt
  ∧ (addIntersectionData s vals d).1 = Returned tt.
Proof.
  intros Hfit Hlen Hv.
  destruct (id_formula_fits d _ _ _ Hfit Hv) as [_ Hin].
  fold (Store.current_index d) in Hin. rewrite <- Hlen in Hin.
  split.
  - exact (do_add_returns (Store.AddPath s vals) d Hin).
  - exact (do_add_returns (Store.AddIntersection s vals) d Hin).
Qed.

(** X9: with [H*W*C] at most [2^32] and the cursor on valid coordinates, no
    [add*] call touches the record of any other valid coordinate. *)
Theorem write_leaves_other_coordinates c d x y k :
  Store.record_count d ≤ 2 ^ 32 →
  Store.valid_coord d (Store.m_x d) (Store.m_y d) (Store.m_currentSampleIdx d) →
  Store.valid_coord d x y k →
  (x, y, k) ≠ (Store.m_x d, Store.m_y d, Store.m_currentSampleIdx d) →
  Store.m_paths (do_add c d).2 !! Z.to_nat (Store.get_current_id d x y k)
  = Store.m_paths d !! Z.to_nat (Store.get_current_id d x y k).
Proof.
  intros Hfit Hcur Hv Hne.
  destruct (do_add_object path_add isect_add intersectionAt c d)
    as [-> | (p & q & _ & ->)]; [done |].
  cbn [snd Store.set_paths Store.m_paths].
  apply list_lookup_insert_ne. unfold Store.current_index.
  destruct (id_formula_fits d _ _ _ Hfit Hcur) as [Hf1 Hb1].
  destruct (id_formula_fits d _ _ _ Hfit Hv) as [Hf2 Hb2].
  intros Heq. apply Z2Nat.inj in Heq; [| lia | lia].
  rewrite Hf1, Hf2 in Heq.
  destruct Hcur as (Hx1 & Hy1 & Hc1), Hv as (Hx2 & Hy2 & Hc2).
  destruct (formula_injective (Store.m_width d) (Store.m_sampleCount d)
              (Store.m_x d) (Store.m_y d) (Store.m_currentSampleIdx d) x y k
              Hx1 Hc1 Hx2 Hc2 Heq) as (Ex & Ey & Ek).
  subst x y k. by destruct Hne.
Qed.

(** The wrapped index of an unset sample index on a pixel other than
    [(0, 0)]: one below the layout formula of the pixel's first record. *)
Lemma unset_sample_index_value d :
  Store.record_count d ≤ 2 ^ 32 →
  0 < Store.m_sampleCount d →
  0 ≤ Store.m_x d < Store.m_width d →
  0 ≤ Store.m_y d < Store.m_height d →
  Store.m_x d ≠ 0 ∨ Store.m_y d ≠ 0 →
  Store.m_currentSampleIdx d = NEG1U →
  Store.current_index d
  = Store.get_current_id d (Store.m_x d) (Store.m_y d) 0 - 1
  ∧ 0 ≤ Store.current_index d < Store.record_count d
  ∧ (0 < Store.m_x d →
     Store.current_index d
     = Store.get_current_id d (Store.m_x d - 1) (Store.m_y d)
                            (Store.m_sampleCount d - 1))
  ∧ (Store.m_x d = 0 →
     Store.current_index d
     = Store.get_current_id d (Store.m_width d - 1) (Store.m_y d - 1)
                            (Store.m_sampleCount d - 1)).
Proof.
  intros Hfit HC Hx Hy Hpix Hs.
  set (W := Store.m_width d) in *. set (C := Store.m_sampleCount d) in *.
  set (x := Store.m_x d) in *. set (y := Store.m_y d) in *.
  assert (Hv0 : Store.valid_coord d x y 0) by (unfold Store.valid_coord; lia).
  destruct (id_formula_fits d _ _ _ Hfit Hv0) as [Hf0 Hb0].
  fold W C in Hf0.
  assert (HWC : C ≤ W * C) by nia.
  assert (Hx0 : 0 ≤ x * C) by (apply Z.mul_nonneg_nonneg; lia).
  assert (Hy0 : 0 ≤ y * (W * C)) by (apply Z.mul_nonneg_nonneg; lia).
  assert (Hpos : 1 ≤ y * (W * C) + x * C).
  { destruct (decide (x = 0)) as [Hx00 | Hx00].
    - assert (1 ≤ y) by lia. nia.
    - assert (1 ≤ x) by lia. nia. }
  assert (Hcur : Store.current_index d = y * (W * C) + x * C - 1).
  { unfold Store.current_index. rewrite get_current_id_wrap, Hs.
    fold W C x y. unfold wrap32.
    replace (y * (W * C) + x * C + NEG1U)
      with (y * (W * C) + x * C - 1 + 1 * 2 ^ 32)
      by (rewrite NEG1U_value; lia).
    rewrite Z.mod_add by lia. apply Z.mod_small.
    unfold Store.record_count in *. lia. }
  split; [lia |]. split; [lia |]. split.
  - intros Hxpos.
    assert (Hv : Store.valid_coord d (x - 1) y (C - 1))
      by (unfold Store.valid_coord; fold W C; lia).
    destruct (id_formula_fits d _ _ _ Hfit Hv) as [-> _]. fold W C. lia.
  - intros Hxz.
    assert (Hv : Store.valid_coord d (W - 1) (y - 1) (C - 1))
      by (unfold Store.valid_coord; fold W C; lia).
    destruct (id_formula_fits d _ _ _ Hfit Hv) as [-> _]. fold W C.
    rewrite Hxz in Hcur. lia.
Qed.

(** X10: on a store that holds [H*W*C] records, [H*W*C] at most [2^32],
    with collection enabled, the sample index still unset ([-1U]) and the
    pixel cursor on a valid pixel other than [(0, 0)], the wrapped index is
    one below the pixel's first record: it is in range and addresses the
    last sample of the previous pixel in layout order.  [addPathData] then
    does not throw: it writes into that other pixel's record, and none of
    the current pixel's own records changes. *)
Theorem unset_sample_index_hits_previous_pixel d s vals :
  Store.record_count d ≤ 2 ^ 32 →
  Z.of_nat (length (Store.m_paths d)) = Store.record_count d →
  Store.isCollecting d = true →
  0 < Store.m_sampleCount d →
  0 ≤ Store.m_x d < Store.m_width d →
  0 ≤ Store.m_y d < Store.m_height d →
  Store.m_x d ≠ 0 ∨ Store.m_y d ≠ 0 →
  Store.m_currentSampleIdx d = NEG1U →
  let i := Store.current_index d in
  let d' := (addPathData s vals d).2 in
  (i = Store.get_current_id d (Store.m_x d) (Store.m_y d) 0 - 1
   ∧ 0 ≤ i < Store.record_count d
   ∧ (0 < Store.m_x d →
      i = Store.get_current_id d (Store.m_x d - 1) (Store.m_y d)
                               (Store.m_sampleCount d - 1))
   ∧ (Store.m_x d = 0 →
      i = Store.get_current_id d (Store.m_width d - 1) (Store.m_y d - 1)
                               (Store.m_sampleCount d - 1)))
  ∧ (addPathData s vals d).1 = Returned tt
  ∧ (∃ p, Store.m_paths d !! Z.to_nat i = Some p
          ∧ Store.m_paths d' !! Z.to_nat i = Some (path_add s vals p))
  ∧ (∀ c, 0 ≤ c < Store.m_sampleCount d →
          Store.m_paths d'
            !! Z.to_nat (Store.get_current_id d (Store.m_x d) (Store.m_y d) c)
          = Store.m_paths d
              !! Z.to_nat (Store.get_current_id d (Store.m_x d) (Store.m_y d) c)).
Proof.
  unfold Store.isCollecting. intros Hfit Hlen Hc HC Hx Hy Hpix Hs. cbv zeta.
  destruct (unset_sample_index_value d Hfit HC Hx Hy Hpix Hs)
    as (Hi & Hin & Hprev).
  split; [exact (conj Hi (conj Hin Hprev)) |].
  destruct (lookup_lt_is_Some_2 (Store.m_paths d)
              (Z.to_nat (Store.current_index d))) as [p Hp]; [lia |].
  unfold Store.addPathData. rewrite Hc. fold (Store.current_index d).
  rewrite (modify_at_in_range d _ (path_add s vals) p Hp).
  cbn [fst snd Store.set_paths Store.m_paths].
  split; [done |]. split.
  - exists p. split; [done |].
    apply list_lookup_insert_eq. by eapply lookup_lt_Some.
  - intros c Hcc. apply list_lookup_insert_ne.
    assert (Hv0 : Store.valid_coord d (Store.m_x d) (Store.m_y d) 0)
      by (unfold Store.valid_coord; lia).
    assert (Hv : Store.valid_coord d (Store.m_x d) (Store.m_y d) c)
      by (unfold Store.valid_coord; lia).
    destruct (id_formula_fits d _ _ _ Hfit Hv0) as [Hf0 _].
    destruct (id_formula_fits d _ _ _ Hfit Hv) as [Hf Hb].
    intros Heq. apply Z2Nat.inj in Heq; lia.
Qed.

(** X13: with the sample index unset ([-1U]) and the pixel cursor on
    [(0, 0)] the index is [2^32 - 1] whatever the dimensions, so while
    collection is enabled [addPathData] throws [out_of_range] on every store
    of fewer than [2^32] records and leaves it unchanged. *)
Theorem unset_sample_index_at_origin_throws d s vals :
  Store.isCollecting d = true →
  Store.m_x d = 0 → Store.m_y d = 0 →
  Store.m_currentSampleIdx d = NEG1U →
  Z.of_nat (length (Store.m_paths d)) < 2 ^ 32 →
  Store.current_index d = 2 ^ 32 - 1
  ∧ addPathData s vals d = (Thrown out_of_range, d).
Proof.
  unfold Store.isCollecting. intros Hc Hx Hy Hs Hlen.
  assert (Hi : Store.current_index d = 2 ^ 32 - 1).
  { unfold Store.current_index.
    rewrite get_current_id_wrap, Hx, Hy, Hs. reflexivity. }
  split; [exact Hi |].
  unfold Store.addPathData. rewrite Hc. fold (Store.current_index d).
  apply modify_at_out_of_range; lia.
Qed.

End ValidCursor.

(** ** The heatmap's guards *)

Section HeatmapGuards.

Context {Point Region Color Weight : Type}.
Context (contains : Region → Point → bool).
Context (subdivide : Region → list Region).
Context (zero_color : Color) (zero_weight : Weight).
Context (add_weighted : Color → Color → Weight → Color).
Context (add_weight : Weight → Weight → Weight).
Context (saturated : N → bool).
Context (finalized_value :
           bool → N → list (Color * Weight * N) → Color → Weight → N → Color).

Local Abbreviation HeatmapApi := (Heatmap.HeatmapApi Region Color Weight).
Local Abbreviation call := (Heatmap.call Point Region Color Weight).
Local Abbreviation run :=
  (Heatmap.run contains subdivide zero_color zero_weight add_weighted
               add_weight saturated finalized_value).

Implicit Types (h : HeatmapApi) (c : call).

(** X11: [hasData] is the exact guard of [getHeatmapData]: the getter
    returns, and then returns the heatmap data, exactly when [hasData] is
    true, throws the logic error exactly when it is false, and never changes
    the object. *)
Theorem hasData_guards_getHeatmapData h :
  (Heatmap.hasData h = true
   ↔ (Heatmap.getHeatmapData h).1 = Returned (Heatmap.heatmap_data h))
  ∧ (Heatmap.hasData h = false
     ↔ (Heatmap.getHeatmapData h).1
       = Thrown (logic_error "finalize the data first"))
  ∧ (∀ data, (Heatmap.getHeatmapData h).1 = Returned data →
             data = Heatmap.heatmap_data h)
  ∧ (∀ e, (Heatmap.getHeatmapData h).1 = Thrown e →
          e = logic_error "finalize the data first")
  ∧ (Heatmap.getHeatmapData h).2 = h.
Proof.
  unfold Heatmap.hasData.
  destruct (getHeatmapData_cases h) as [[Hf ->] | [Hf ->]];
    rewrite Hf; cbn [fst snd]; split_and!; try done.
  - by intros data [= <-].
  - by intros e [= <-].
Qed.

Lemma toggle_unfinalized c h :
  Heatmap.finalized h = false →
  c = Heatmap.Enable ∨ c = Heatmap.Disable →
  Heatmap.do_call contains subdivide zero_color zero_weight add_weighted
                  add_weight saturated finalized_value c h
  = Heatmap.set_is_collecting
      (match c with Heatmap.Enable => true | _ => false end) h.
Proof.
  intros Hf [-> | ->]; cbn [Heatmap.do_call].
  - unfold Heatmap.enable. by rewrite Hf.
  - done.
Qed.

(** X12: on a heatmap that is not finalized, [enable] and [disable] in any
    order change nothing but the collecting flag: the accumulated data, the
    display options and the finalized flag stay as they are, so
    [getHeatmapData] keeps throwing. *)
Theorem toggles_change_only_the_flag cs h :
  Heatmap.finalized h = false →
  Forall (λ c, c = Heatmap.Enable ∨ c = Heatmap.Disable) cs →
  run cs h = Heatmap.set_is_collecting (Heatmap.is_collecting (run cs h)) h
  ∧ Heatmap.heatmap_data (run cs h) = Heatmap.heatmap_data h
  ∧ Heatmap.hasData (run cs h) = false
  ∧ (Heatmap.getHeatmapData (run cs h)).1
    = Thrown (logic_error "finalize the data first").
Proof.
  intros Hf Hcs.
  assert (Hrun : run cs h
                 = Heatmap.set_is_collecting (Heatmap.is_collecting (run cs h)) h).
  { revert h Hf. induction Hcs as [| c cs Hc _ IH]; intros h Hf.
    - by destruct h.
    - unfold Heatmap.run in *. cbn [foldl].
      rewrite (toggle_unfinalized c h Hf Hc).
      rewrite IH at 1 by done. done. }
  split; [exact Hrun |].
  rewrite Hrun. unfold Heatmap.hasData, Heatmap.getHeatmapData.
  cbn [Heatmap.set_is_collecting Heatmap.heatmap_data Heatmap.finalized
       Heatmap.is_collecting].
  rewrite Hf. split_and!; done.
Qed.

End HeatmapGuards.

(** ** Concrete runs *)

Lemma addPathData_writes_one_record_witness :
  let d' := (Records.addPath "k" [7] Records.store_2_2_1_at_0).2 in
  Store.current_index Records.store_2_2_1_at_0 = 1
  ∧ Store.m_paths d' !! 1%nat = Some (Records.mkPath [("k", [7])] [])
  ∧ Store.m_paths d' !! 0%nat = Some Records.empty_path
  ∧ length (Store.m_paths d') = 4%nat.
Proof.
  destruct (addPathData_writes_one_record Records.path_add
              Records.store_2_2_1_at_0 "k" [7] Records.empty_path
              eq_refl eq_refl)
    as (_ & Hrec & Hothers & Hlen & _).
  cbv zeta. split; [reflexivity |]. split; [exact Hrec |].
  split; [| exact Hlen].
  exact (eq_trans (Hothers 0%nat ltac:(vm_compute; discriminate)) eq_refl).
Defined.

Lemma addIntersectionData_writes_one_record_witness :
  let d' := (Records.addIntersection "k" [7] Records.store_2_2_1_at_0).2 in
  Store.m_paths d' !! 1%nat
  = Some (Records.mkPath [] [Records.mkIntersection [("k", [7])]])
  ∧ Store.m_paths d' !! 3%nat = Some Records.empty_path
  ∧ length (Store.m_paths d') = 4%nat.
Proof.
  destruct (addIntersectionData_writes_one_record Records.isect_add
              Records.intersectionAt Records.store_2_2_1_at_0 "k" [7]
              Records.empty_path eq_refl ltac:(vm_compute; discriminate) eq_refl)
    as (_ & Hrec & Hothers & Hlen & _).
  cbv zeta. split; [exact Hrec |]. split; [| exact Hlen].
  exact (eq_trans (Hothers 3%nat ltac:(vm_compute; discriminate)) eq_refl).
Defined.

Lemma header_calls_frame_witness :
  let d' := Store.do_header_calls Records.path_add Records.isect_add
              Records.intersectionAt
              [Store.CallAdd (Store.AddPath "k" [7]);
               Store.CallAdd (Store.AddIntersection "k" [7])]
              Records.store_2_2_1_at_0 in
  length (Store.m_paths d') = 4%nat ∧ Store.isCollecting d' = true.
Proof.
  destruct (header_calls_frame Records.path_add Records.isect_add
              Records.intersectionAt
              [Store.CallAdd (Store.AddPath "k" [7]);
               Store.CallAdd (Store.AddIntersection "k" [7])]
              Records.store_2_2_1_at_0)
    as (_ & _ & Hlen & Hsw).
  split; [exact (Hlen eq_refl) | exact (Hsw eq_refl)].
Defined.

Lemma adds_accumulate_in_one_record_witness :
  Store.do_adds Records.path_add Records.isect_add Records.intersectionAt
    [Store.AddPath "a" [1]; Store.AddIntersection "b" [2]; Store.AddPath "c" [3]]
    Records.store_2_2_1_at_0
  = (Returned tt,
     Store.set_paths
       [Records.empty_path;
        Records.mkPath [("a", [1]); ("c", [3])]
                       [Records.mkIntersection [("b", [2])]];
        Records.empty_path; Records.empty_path]
       Records.store_2_2_1_at_0).
Proof.
  exact (adds_accumulate_in_one_record Records.path_add Records.isect_add
           Records.intersectionAt
           [Store.AddPath "a" [1]; Store.AddIntersection "b" [2];
            Store.AddPath "c" [3]]
           Records.store_2_2_1_at_0 Records.empty_path eq_refl eq_refl).
Defined.

Lemma valid_cursor_write_returns_witness :
  (Records.addPath "k" [7] Records.store_2_2_1_at_0).1 = Returned tt
  ∧ (Records.addIntersection "k" [7] Records.store_2_2_1_at_0).1 = Returned tt.
Proof.
  apply (valid_cursor_write_returns Records.path_add Records.isect_add
           Records.intersectionAt Records.store_2_2_1_at_0 "k" [7]).
  - vm_compute. discriminate.
  - reflexivity.
  - unfold Store.valid_coord. simpl. lia.
Defined.

Lemma write_leaves_other_coordinates_witness :
  Store.m_paths (Records.addPath "k" [7] Records.store_2_2_1_at_0).2
    !! Z.to_nat (Store.get_current_id Records.store_2_2_1_at_0 0 1 0)
  = Some Records.empty_path.
Proof.
  refine (eq_trans
            (write_leaves_other_coordinates Records.path_add Records.isect_add
               Records.intersectionAt (Store.AddPath "k" [7])
               Records.store_2_2_1_at_0 0 1 0 _ _ _ _) eq_refl).
  - vm_compute. discriminate.
  - unfold Store.valid_coord. simpl. lia.
  - unfold Store.valid_coord. simpl. lia.
  - simpl. discriminate.
Defined.

Lemma unset_sample_index_hits_previous_pixel_witness :
  let d' := (Records.addPath "k" [7] Records.store_2_2_1).2 in
  Store.current_index Records.store_2_2_1
  = Store.get_current_id Records.store_2_2_1 0 0 0
  ∧ (Records.addPath "k" [7] Records.store_2_2_1).1 = Returned tt
  ∧ Store.m_paths d' !! 0%nat = Some (Records.mkPath [("k", [7])] [])
  ∧ Store.m_paths d' !! 1%nat = Some Records.empty_path.
Proof.
  destruct (unset_sample_index_hits_previous_pixel Records.path_add
              Records.store_2_2_1 "k" [7])
    as ((_ & _ & Hprev & _) & Hret & _ & Hown).
  - vm_compute. discriminate.
  - reflexivity.
  - reflexivity.
  - reflexivity.
  - simpl. lia.
  - simpl. lia.
  - left. simpl. discriminate.
  - reflexivity.
  - cbv zeta. split; [exact (Hprev eq_refl) |]. split; [exact Hret |].
    split; [reflexivity |].
    exact (eq_trans (Hown 0 ltac:(simpl; lia)) eq_refl).
Defined.

Lemma toggles_change_only_the_flag_witness :
  let h := Strip.run Strip.six_samples Heatmap.construct in
  let h' := Strip.run [Heatmap.Disable; Heatmap.Enable; Heatmap.Disable] h in
  Heatmap.heatmap_data h' = Heatmap.heatmap_data h
  ∧ Heatmap.hasData h' = false.
Proof.
  destruct (toggles_change_only_the_flag Strip.contains Strip.subdivide 0 0
              Strip.add_weighted Strip.add_weight Strip.saturated
              Strip.finalized_value
              [Heatmap.Disable; Heatmap.Enable; Heatmap.Disable]
              (Strip.run Strip.six_samples Heatmap.construct))
    as (_ & Hdata & Hhas & _).
  - reflexivity.
  - repeat (apply Forall_cons_2; [first [by left | by right] |]).
    apply Forall_nil_2.
  - split; [exact Hdata | exact Hhas].
Defined.

Lemma unset_sample_index_at_origin_throws_witness :
  let d : Records.store :=
    Store.mkDataApi (replicate 4 Records.empty_path) 2 2 1 0 0 NEG1U NEG1U true in
  Store.current_index d = 4294967295
  ∧ Records.addPath "k" [7] d = (Thrown out_of_range, d).
Proof.
  cbv zeta.
  apply (unset_sample_index_at_origin_throws Records.path_add
           (Store.mkDataApi (replicate 4 Records.empty_path) 2 2 1 0 0
                            NEG1U NEG1U true) "k" [7]);
    try reflexivity.
Defined.
